(** * Verification of the autotest server core (server/autotest_server.py)

    A shallow embedding of the functions of [autotest_server.py] that the
    specification talks about, and the theorems that settle each claim.

    Conventions.
    - A Python [str] is a list of Unicode code points ([pystr]), [bytes] a
      list of byte values ([pybytes]).
    - A Python [float] is the rational it stands for; every operation on
      floats rounds to the nearest [binary64] number.
    - Names of files, Redis keys and paths are [string]s.
    - Code that talks to the operating system or to Redis is written in a
      state-and-exception monad over an explicit [world].
    - The standard [json] decoder is modelled after [json/decoder.py] and
      [json/scanner.py] of CPython (ASCII digits and strict hexadecimal
      escapes, as in the accelerated scanner the interpreter uses),
      with the two limits of the interpreter it can run into. *)

From Stdlib Require Import ZArith NArith QArith Qcanon Ascii String List Lia.
From Stdlib Require Import DecimalString Qround.
From stdpp Require Import base option list gmap strings.

Set Warnings "-register-all".

(** ** Python strings *)

Abbreviation pystr := (list N).

Definition ord (a : ascii) : N := N_of_ascii a.

Definition py (s : string) : pystr := ord <$> list_ascii_of_string s.

(** The double quote, which cannot be written inside a literal here. *)
Definition QUOTE : N := 34.

(** [pyq] reads a literal in which an apostrophe stands for a double quote. *)
Definition pyq (s : string) : pystr :=
  (fun c => if N.eqb c 39 then QUOTE else c) <$> py s.

(** [s[a:b]] for [0 <= a <= b]. *)
Definition slice (s : pystr) (a b : nat) : pystr := take (b - a) (drop a s).

(** [str.isspace] on one code point: the characters [str.strip] removes. *)
Definition isspace (c : N) : bool :=
  ((9 <=? c) && (c <=? 13) || (28 <=? c) && (c <=? 32)
   || (c =? 133) || (c =? 160) || (c =? 5760)
   || (8192 <=? c) && (c <=? 8202)
   || (c =? 8232) || (c =? 8233) || (c =? 8239) || (c =? 8287)
   || (c =? 12288))%N.

Fixpoint lstrip (s : pystr) : pystr :=
  match s with
  | c :: t => if isspace c then lstrip t else s
  | [] => []
  end.

Definition rstrip (s : pystr) : pystr := rev (lstrip (rev s)).

Definition strip (s : pystr) : pystr := rstrip (lstrip s).

Definition nonspace (c : N) : bool := negb (isspace c).

(** Truth value of a Python string: non-empty. *)
Definition truthy (s : pystr) : bool :=
  match s with [] => false | _ => true end.

(** Text comes as [str] or as [bytes]: what the code writes itself is
    [str], what a pipe of a child process holds is [bytes]. *)
Abbreviation pybytes := (list N).

Inductive pydata : Type :=
  | Text (s : pystr)
  | Bytes (b : pybytes).

(** Truth value of either: non-empty. *)
Definition data_truthy (d : pydata) : bool :=
  match d with
  | Text s => truthy s
  | Bytes b => match b with [] => false | _ => true end
  end.

(** ** Values produced by the JSON decoder *)

Inductive json : Type :=
  | JNone
  | JBool (b : bool)
  | JInt (z : Z)
  | JFloat (lexeme : pystr)
  | JStr (s : pystr)
  | JList (items : list json)
  | JDict (pairs : list (pystr * json)).

Inductive pytype : Type :=
  | TNoneType | TBool | TInt | TFloat | TStr | TList | TDict.

(** [isinstance(obj, t)]; [bool] is a subclass of [int]. *)
Definition isinstance (obj : json) (t : pytype) : bool :=
  match obj, t with
  | JNone, TNoneType => true
  | JBool _, TBool => true
  | JBool _, TInt => true
  | JInt _, TInt => true
  | JFloat _, TFloat => true
  | JStr _, TStr => true
  | JList _, TList => true
  | JDict _, TDict => true
  | _, _ => false
  end.

(** [d[k] = v] on an insertion-ordered dictionary. *)
Fixpoint dict_set (d : list (pystr * json)) (k : pystr) (v : json)
  : list (pystr * json) :=
  match d with
  | [] => [(k, v)]
  | (k', v') :: t =>
      if bool_decide (k' = k) then (k', v) :: t else (k', v') :: dict_set t k v
  end.

(** [dict(pairs)]: later duplicates overwrite, first position is kept. *)
Definition dict (pairs : list (pystr * json)) : list (pystr * json) :=
  foldl (fun d kv => dict_set d kv.1 kv.2) [] pairs.

(** ** The JSON scanner *)

Module Json.

(** Result of a decoding step.  [DecodeError] stands for [JSONDecodeError]
    (and for the [StopIteration] the scanner turns into it).  The scanner
    can fail in two more ways, neither of them a [JSONDecodeError]:
    [RecursionErr] when containers are nested deeper than the interpreter
    allows, and [ValueErr] when an integer has more digits than the
    interpreter converts.  [OutOfFuel] is an artefact of the recursion on
    fuel and is shown never to reach [raw_decode]. *)
Inductive outcome (A : Type) : Type :=
  | Ok (a : A)
  | DecodeError
  | RecursionErr
  | ValueErr
  | OutOfFuel.
Arguments Ok {A} a.
Arguments DecodeError {A}.
Arguments RecursionErr {A}.
Arguments ValueErr {A}.
Arguments OutOfFuel {A}.

Definition obind {A B} (m : outcome A) (k : A -> outcome B) : outcome B :=
  match m with
  | Ok a => k a
  | DecodeError => DecodeError
  | RecursionErr => RecursionErr
  | ValueErr => ValueErr
  | OutOfFuel => OutOfFuel
  end.

Notation "'let*' x := m 'in' k" := (obind m (fun x => k))
  (at level 10, x pattern, m at level 100, k at level 200).

Definition of_option {A} (o : option A) : outcome A :=
  match o with Some a => Ok a | None => DecodeError end.

(** [WHITESPACE_STR = ' \t\n\r'] *)
Definition is_ws (c : N) : bool :=
  ((c =? 32) || (c =? 9) || (c =? 10) || (c =? 13))%N.

(** [nextchar in _ws] for a slice [s[end:end+1]]: the empty string is a
    substring of every string. *)
Definition in_ws (nextchar : option N) : bool :=
  match nextchar with
  | None => true
  | Some c => is_ws c
  end.

Fixpoint ws_run (l : pystr) : nat :=
  match l with
  | c :: t => if is_ws c then S (ws_run t) else 0
  | [] => 0
  end.

(** [WHITESPACE.match(s, pos).end()]; a position past the end is clamped. *)
Definition _w (s : pystr) (pos : nat) : nat :=
  let p := pos `min` length s in
  p + ws_run (drop p s).

(** [BACKSLASH] *)
Definition BACKSLASH (esc : N) : option N :=
  if (esc =? QUOTE)%N then Some QUOTE
  else if (esc =? ord "\")%N then Some (ord "\")
  else if (esc =? ord "/")%N then Some (ord "/")
  else if (esc =? ord "b")%N then Some 8%N
  else if (esc =? ord "f")%N then Some 12%N
  else if (esc =? ord "n")%N then Some 10%N
  else if (esc =? ord "r")%N then Some 13%N
  else if (esc =? ord "t")%N then Some 9%N
  else None.

Definition hexval (c : N) : option N :=
  if ((48 <=? c) && (c <=? 57))%N then Some (c - 48)%N
  else if ((97 <=? c) && (c <=? 102))%N then Some (c - 87)%N
  else if ((65 <=? c) && (c <=? 70))%N then Some (c - 55)%N
  else None.

(** [_decode_uXXXX] on the four characters after [\u]. *)
Definition decode_uXXXX (h1 h2 h3 h4 : N) : option N :=
  a ← hexval h1; b ← hexval h2; c ← hexval h3; d ← hexval h4;
  Some (((a * 16 + b) * 16 + c) * 16 + d)%N.

Definition is_high_surrogate (u : N) : bool := ((55296 <=? u) && (u <=? 56319))%N.
Definition is_low_surrogate (u : N) : bool := ((56320 <=? u) && (u <=? 57343))%N.

Definition join_surrogates (uni uni2 : N) : N :=
  (65536 + N.lor (N.shiftl (uni - 55296) 10) (uni2 - 56320))%N.

(** [py_scanstring(s, end)] with [strict=True], reading the characters
    [rest = s[end:]] one chunk terminator at a time.  [chunks] is the text
    decoded so far; the result is the string and the index after the
    closing quote. *)
Fixpoint scan_chunks (rest : pystr) (end_ : nat) (chunks : pystr)
  : option (pystr * nat) :=
  match rest with
  | [] => None
  | c :: rest1 =>
    if (c =? QUOTE)%N then Some (chunks, S end_)
    else if (c =? ord "\")%N then
      match rest1 with
      | [] => None
      | esc :: rest2 =>
        if negb (esc =? ord "u")%N then
          match BACKSLASH esc with
          | Some char => scan_chunks rest2 (end_ + 2) (chunks ++ [char])
          | None => None
          end
        else
          match rest2 with
          | h1 :: h2 :: h3 :: h4 :: rest3 =>
            match decode_uXXXX h1 h2 h3 h4 with
            | None => None
            | Some uni =>
              match rest3 with
              | b :: u :: rest4 =>
                if is_high_surrogate uni && (b =? ord "\")%N && (u =? ord "u")%N
                then
                  match rest4 with
                  | g1 :: g2 :: g3 :: g4 :: rest5 =>
                    match decode_uXXXX g1 g2 g3 g4 with
                    | None => None
                    | Some uni2 =>
                      if is_low_surrogate uni2
                      then scan_chunks rest5 (end_ + 12)
                             (chunks ++ [join_surrogates uni uni2])
                      else scan_chunks rest3 (end_ + 6) (chunks ++ [uni])
                    end
                  | _ => None
                  end
                else scan_chunks rest3 (end_ + 6) (chunks ++ [uni])
              | _ => scan_chunks rest3 (end_ + 6) (chunks ++ [uni])
              end
            end
          | _ => None
          end
      end
    else if (c <? 32)%N then None
    else scan_chunks rest1 (S end_) (chunks ++ [c])
  end.

Definition py_scanstring (s : pystr) (end_ : nat) : option (pystr * nat) :=
  scan_chunks (drop end_ s) end_ [].

(** [NUMBER_RE]: an optional minus sign and an integer part (a single zero,
    or a non-zero digit followed by digits), then an optional fraction (a dot
    and at least one digit), then an optional exponent (e or E, an optional
    sign, at least one digit). *)
Definition is_digit (c : N) : bool := ((48 <=? c) && (c <=? 57))%N.

Fixpoint digits (l : pystr) : pystr :=
  match l with
  | c :: t => if is_digit c then c :: digits t else []
  | [] => []
  end.

Definition match_frac (l : pystr) : pystr :=
  match l with
  | c :: t =>
      if (c =? ord ".")%N then
        match digits t with [] => [] | ds => c :: ds end
      else []
  | [] => []
  end.

Definition match_exp (l : pystr) : pystr :=
  match l with
  | c :: t =>
      if ((c =? ord "e") || (c =? ord "E"))%N then
        match t with
        | sg :: t' =>
            if ((sg =? ord "-") || (sg =? ord "+"))%N then
              match digits t' with [] => [] | ds => c :: sg :: ds end
            else match digits t with [] => [] | ds => c :: ds end
        | [] => []
        end
      else []
  | [] => []
  end.

Definition match_integer (l : pystr) : option pystr :=
  let unsigned t :=
    match t with
    | d :: t' =>
        if (d =? ord "0")%N then Some [d]
        else if is_digit d then Some (d :: digits t')
        else None
    | [] => None
    end in
  match l with
  | c :: t =>
      if (c =? ord "-")%N then (fun ds => c :: ds) <$> unsigned t
      else unsigned l
  | [] => None
  end.

(** The three groups of a match of [NUMBER_RE] at the head of [l]. *)
Definition match_number (l : pystr) : option (pystr * pystr * pystr) :=
  integer ← match_integer l;
  let l1 := drop (length integer) l in
  let frac := match_frac l1 in
  let exp := match_exp (drop (length frac) l1) in
  Some (integer, frac, exp).

Definition parse_int (integer : pystr) : Z :=
  let value ds := foldl (fun acc c => acc * 10 + Z.of_N (c - 48))%Z 0%Z ds in
  match integer with
  | c :: t => if (c =? ord "-")%N then (- value t)%Z else value integer
  | [] => 0%Z
  end.

(** [int(integer)] refuses a literal of more than [max_digits] digits, the
    sign not counted; a limit of 0 switches the check off
    ([sys.set_int_max_str_digits]). *)
Definition int_too_long (max_digits : nat) (integer : pystr) : bool :=
  let ds := match integer with
            | c :: t => if (c =? ord "-")%N then t else integer
            | [] => []
            end in
  bool_decide (0 < max_digits) && bool_decide (max_digits < length ds).

Section Parsers.
  (** [JSONObject] and [JSONArray] receive the scanner as an argument,
      as in [json/decoder.py]. *)
Variable scan_once : pystr -> nat -> outcome (json * nat).

  (** The optional white space after [':'] and after [','] in arrays:
      [try: if s[end] in _ws: end += 1; if s[end] in _ws: end = _w(s, end + 1).end()
       except IndexError: pass] *)
Definition skip_after (s : pystr) (end_ : nat) : nat :=
    match s !! end_ with
    | Some c =>
        if is_ws c then
          let end_ := end_ + 1 in
          match s !! end_ with
          | Some c2 => if is_ws c2 then _w s (end_ + 1) else end_
          | None => end_
          end
        else end_
    | None => end_
    end.

  (** One turn of the [while True] of [JSONObject]; [end_] is just after
      the opening quote of the key. *)
Fixpoint object_loop (fuel : nat) (s : pystr) (end_ : nat)
      (pairs : list (pystr * json)) : outcome (json * nat) :=
    match fuel with
    | O => OutOfFuel
    | S fuel =>
      let* (key, end_) := of_option (py_scanstring s end_) in
      let* end_ :=
        if bool_decide (s !! end_ = Some (ord ":")) then Ok end_
        else
          let end_ := _w s end_ in
          if bool_decide (s !! end_ = Some (ord ":")) then Ok end_
          else DecodeError in
      let end_ := end_ + 1 in
      let end_ := skip_after s end_ in
      let* (value, end_) := scan_once s end_ in
      let pairs := pairs ++ [(key, value)] in
      let '(nextchar, end_) :=
        match s !! end_ with
        | Some c =>
            if is_ws c then
              let end_ := _w s (end_ + 1) in (s !! end_, end_)
            else (Some c, end_)
        | None => (None, end_)
        end in
      let end_ := end_ + 1 in
      if bool_decide (nextchar = Some (ord "}")) then
        Ok (JDict (dict pairs), end_)
      else if negb (bool_decide (nextchar = Some (ord ","))) then DecodeError
      else
        let end_ := _w s end_ in
        let nextchar := s !! end_ in
        let end_ := end_ + 1 in
        if negb (bool_decide (nextchar = Some QUOTE)) then DecodeError
        else object_loop fuel s end_ pairs
    end.

Definition JSONObject (fuel : nat) (s : pystr) (end_ : nat)
    : outcome (json * nat) :=
    let nextchar := s !! end_ in
    if negb (bool_decide (nextchar = Some QUOTE)) then
      let '(nextchar, end_) :=
        if in_ws nextchar then let end_ := _w s end_ in (s !! end_, end_)
        else (nextchar, end_) in
      if bool_decide (nextchar = Some (ord "}")) then Ok (JDict [], end_ + 1)
      else if negb (bool_decide (nextchar = Some QUOTE)) then DecodeError
      else object_loop fuel s (end_ + 1) []
    else object_loop fuel s (end_ + 1) [].

  (** One turn of the [while True] of [JSONArray]. *)
Fixpoint array_loop (fuel : nat) (s : pystr) (end_ : nat)
      (values : list json) : outcome (json * nat) :=
    match fuel with
    | O => OutOfFuel
    | S fuel =>
      let* (value, end_) := scan_once s end_ in
      let values := values ++ [value] in
      let nextchar := s !! end_ in
      let '(nextchar, end_) :=
        if in_ws nextchar then let end_ := _w s (end_ + 1) in (s !! end_, end_)
        else (nextchar, end_) in
      let end_ := end_ + 1 in
      if bool_decide (nextchar = Some (ord "]")) then Ok (JList values, end_)
      else if negb (bool_decide (nextchar = Some (ord ","))) then DecodeError
      else array_loop fuel s (skip_after s end_) values
    end.

Definition JSONArray (fuel : nat) (s : pystr) (end_ : nat)
    : outcome (json * nat) :=
    let nextchar := s !! end_ in
    let '(nextchar, end_) :=
      if in_ws nextchar then let end_ := _w s (end_ + 1) in (s !! end_, end_)
      else (nextchar, end_) in
    if bool_decide (nextchar = Some (ord "]")) then Ok (JList [], end_ + 1)
    else array_loop fuel s end_ [].
End Parsers.

(** [_scan_once(string, idx)] of [py_make_scanner].  [depth] is the number
    of containers the value lies in; entering one more when [max_depth] are
    open already fails with [RecursionError], as the interpreter's check of
    its recursion depth does. *)
Fixpoint scan_once (max_depth max_digits : nat) (fuel : nat) (depth : nat)
    (s : pystr) (idx : nat) {struct fuel} : outcome (json * nat) :=
  match fuel with
  | O => OutOfFuel
  | S fuel =>
    match s !! idx with
    | None => DecodeError
    | Some nextchar =>
      if (nextchar =? QUOTE)%N then
        let* (str, end_) := of_option (py_scanstring s (idx + 1)) in
        Ok (JStr str, end_)
      else if (nextchar =? ord "{")%N then
        if bool_decide (max_depth ≤ depth) then RecursionErr
        else JSONObject (scan_once max_depth max_digits fuel (S depth))
               fuel s (idx + 1)
      else if (nextchar =? ord "[")%N then
        if bool_decide (max_depth ≤ depth) then RecursionErr
        else JSONArray (scan_once max_depth max_digits fuel (S depth))
               fuel s (idx + 1)
      else if (nextchar =? ord "n")%N
              && bool_decide (slice s idx (idx + 4) = py "null") then
        Ok (JNone, idx + 4)
      else if (nextchar =? ord "t")%N
              && bool_decide (slice s idx (idx + 4) = py "true") then
        Ok (JBool true, idx + 4)
      else if (nextchar =? ord "f")%N
              && bool_decide (slice s idx (idx + 5) = py "false") then
        Ok (JBool false, idx + 5)
      else
        match match_number (drop idx s) with
        | Some (integer, frac, exp) =>
            if truthy frac || truthy exp then
              Ok (JFloat (integer ++ frac ++ exp),
                  idx + length integer + length frac + length exp)
            else if int_too_long max_digits integer then ValueErr
            else Ok (JInt (parse_int integer),
                     idx + length integer + length frac + length exp)
        | None =>
            if (nextchar =? ord "N")%N
               && bool_decide (slice s idx (idx + 3) = py "NaN") then
              Ok (JFloat (py "NaN"), idx + 3)
            else if (nextchar =? ord "I")%N
               && bool_decide (slice s idx (idx + 8) = py "Infinity") then
              Ok (JFloat (py "Infinity"), idx + 8)
            else if (nextchar =? ord "-")%N
               && bool_decide (slice s idx (idx + 9) = py "-Infinity") then
              Ok (JFloat (py "-Infinity"), idx + 9)
            else DecodeError
        end
    end
  end.

End Json.

(** ** Exceptions *)

(** A raised exception: its class, its string form, and its [message]
    attribute when the class has one.  No built-in exception class of
    Python 3 has a [message] attribute. *)
Record exn : Type := Exn {
  exn_class : string;
  exn_str : pystr;
  exn_message : option pystr
}.

Definition builtin_exn (cls : string) (text : string) : exn :=
  Exn cls (py text) None.

Definition IndexError : exn := builtin_exn "IndexError" "string index out of range".

(** How a call ends: it returns, it raises, or it never comes back: it
    waits on a lock, on an empty Redis list or on a child process that does
    not finish ([Blocked] also stands for a loop that outlives its fuel). *)
Inductive pyresult (A : Type) : Type :=
  | Return (a : A)
  | Raise (e : exn)
  | Blocked.
Arguments Return {A} a.
Arguments Raise {A} e.
Arguments Blocked {A}.

Definition TypeError (text : string) : exn := builtin_exn "TypeError" text.
Definition ValueError (text : string) : exn := builtin_exn "ValueError" text.
Definition OSError (text : string) : exn := builtin_exn "OSError" text.
Definition FileNotFoundError : exn :=
  builtin_exn "FileNotFoundError" "[Errno 2] No such file or directory".
Definition NotADirectoryError : exn :=
  builtin_exn "NotADirectoryError" "[Errno 20] Not a directory".
Definition IsADirectoryError : exn :=
  builtin_exn "IsADirectoryError" "[Errno 21] Is a directory".
Definition ProcessLookupError : exn :=
  builtin_exn "ProcessLookupError" "[Errno 3] No such process".
Definition AttributeError (text : string) : exn :=
  builtin_exn "AttributeError" text.
Definition ResponseError (text : string) : exn :=
  builtin_exn "ResponseError" text.
Definition TimeoutExpired : exn :=
  builtin_exn "TimeoutExpired" "Command timed out".
Definition JSONDecodeError : exn :=
  builtin_exn "JSONDecodeError" "Expecting value".
Definition RecursionError : exn :=
  builtin_exn "RecursionError" "maximum recursion depth exceeded".

(** The [ValueError] of [int] for a literal with too many digits. *)
Definition IntDigitsError : exn :=
  ValueError "Exceeds the limit (4300 digits) for integer string conversion".

(** ** The decoder *)

(** The limits of the interpreter that the decoder can run into (CPython
    3.11, as shipped).  Every container the decoder enters counts against
    the recursion limit of the interpreter, [sys.getrecursionlimit()], which
    is 1000, together with the frames already on the stack, and the
    interpreter raises [RecursionError] when the limit is reached.
    [RECURSION_DEPTH] is that limit: no text nested deeper is decoded,
    whatever the stack of the caller.  How much earlier the interpreter
    gives up depends on the frames in use (at least three inside
    [loads_partial_json]) and, within a few levels of the limit, on the
    stack the decoder needs to build its own [JSONDecodeError]; the lemmas
    below use the limit only from above, as nesting that cannot be decoded.
    [INT_MAX_STR_DIGITS] is [sys.get_int_max_str_digits()]: an integer
    literal with more digits, the sign not counted, makes [int] raise
    [ValueError]. *)
Definition RECURSION_DEPTH : nat := 1000.
Definition INT_MAX_STR_DIGITS : nat := 4300.

(** [raw_decode(s, idx)]: the decoded value and the index where it ends.
    [StopIteration] from the scanner becomes [JSONDecodeError]; the other
    two failures pass through as they are.  Every nested value and every
    turn of a loop consumes a character, so [S (length s)] units of fuel are
    never used up (lemma [scan_once_fuel] below). *)
Definition raw_decode_from (s : pystr) (idx : nat) : pyresult (json * nat) :=
  match Json.scan_once RECURSION_DEPTH INT_MAX_STR_DIGITS
          (S (length s)) 0 s idx with
  | Json.Ok r => Return r
  | Json.DecodeError => Raise JSONDecodeError
  | Json.RecursionErr => Raise RecursionError
  | Json.ValueErr => Raise IntDigitsError
  | Json.OutOfFuel => Blocked
  end.

(** [json.JSONDecoder().raw_decode(s)] *)
Definition raw_decode (s : pystr) : pyresult (json * nat) :=
  raw_decode_from s 0.

(** ** loads_partial_json *)

(** [expected_type is None or isinstance(obj, expected_type)] *)
Definition type_ok (expected_type : option pytype) (obj : json) : bool :=
  match expected_type with
  | None => true
  | Some t => isinstance obj t
  end.

(** The [while i < len(json_string)] loop; [None] when [fuel] turns of the
    loop were not enough. *)
Fixpoint loads_loop (fuel : nat) (json_string : pystr)
    (expected_type : option pytype) (i : nat) (results : list json)
    (malformed : bool) : option (pyresult (list json * bool)) :=
  match fuel with
  | O => None
  | S fuel =>
    if bool_decide (i < length json_string) then
      match raw_decode (drop i json_string) with
      | Return (obj, ind) =>
          let results :=
            if type_ok expected_type obj then results ++ [obj] else results in
          let malformed :=
            if truthy (strip (slice json_string i (i + ind))) then true
            else malformed in
          loads_loop fuel json_string expected_type (i + ind) results malformed
      | Raise e =>
          if bool_decide (exn_class e = "JSONDecodeError") then
            match json_string !! i with
            | None => Some (Raise IndexError)
            | Some c =>
                let malformed :=
                  if truthy (strip [c]) then true else malformed in
                loads_loop fuel json_string expected_type (i + 1) results
                  malformed
            end
          else Some (Raise e)
      | Blocked => Some Blocked
      end
    else Some (Return (results, malformed))
  end.

Definition loads_partial_json (json_string : pystr)
    (expected_type : option pytype) : option (pyresult (list json * bool)) :=
  loads_loop (S (length json_string)) json_string expected_type 0 [] false.

(** The same function handed [bytes].  The loop is not entered for empty
    input; otherwise its first call of [raw_decode] raises [TypeError],
    because the decoder takes [str] only, and [TypeError] is not caught. *)
Definition loads_partial_json_bytes (json_string : pybytes)
    (expected_type : option pytype) : option (pyresult (list json * bool)) :=
  match json_string with
  | [] => Some (Return ([], false))
  | _ :: _ =>
      Some (Raise (TypeError "first argument must be a string, not bytes"))
  end.

(** ** The file system *)

(** A path is the list of its components below the root. *)
Abbreviation path := (list string).

Inductive node : Type :=
  | File (content : pystr)
  | Dir (entries : list (string * node)).

Fixpoint lookup_entry (name : string) (entries : list (string * node))
  : option node :=
  match entries with
  | [] => None
  | (n, child) :: rest =>
      if bool_decide (n = name) then Some child else lookup_entry name rest
  end.

(** Replace, add ([Some]) or remove ([None]) the entry called [name]. *)
Fixpoint set_entry (name : string) (new : option node)
    (entries : list (string * node)) : list (string * node) :=
  match entries with
  | [] => match new with Some child => [(name, child)] | None => [] end
  | (n, child) :: rest =>
      if bool_decide (n = name) then
        match new with Some child' => (n, child') :: rest | None => rest end
      else (n, child) :: set_entry name new rest
  end.

Fixpoint lookup_node (p : path) (n : node) : option node :=
  match p with
  | [] => Some n
  | name :: rest =>
      match n with
      | Dir entries => child ← lookup_entry name entries; lookup_node rest child
      | File _ => None
      end
  end.

(** Write [new] at [p]; [None] when the parent of [p] is not a directory. *)
Fixpoint set_node (p : path) (new : option node) (n : node) : option node :=
  match p with
  | [] => match new with Some n' => Some n' | None => Some (Dir []) end
  | name :: rest =>
      match n with
      | File _ => None
      | Dir entries =>
          match rest with
          | [] => Some (Dir (set_entry name new entries))
          | _ =>
              child ← lookup_entry name entries;
              child' ← set_node rest new child;
              Some (Dir (set_entry name (Some child') entries))
          end
      end
  end.

(** [os.makedirs(p, exist_ok=True)] below [n]; [None] when a component of
    [p] exists and is a file. *)
Fixpoint makedirs_node (p : path) (n : node) : option node :=
  match n with
  | File _ => None
  | Dir entries =>
      match p with
      | [] => Some n
      | name :: rest =>
          let child := default (Dir []) (lookup_entry name entries) in
          child' ← makedirs_node rest child;
          Some (Dir (set_entry name (Some child') entries))
      end
  end.

Definition is_dir (n : node) : bool :=
  match n with Dir _ => true | File _ => false end.

(** [os.walk(root)] flattened the way [_recursive_iglob] yields it: for each
    directory visited, its sub-directories, then its files, then the same
    for each sub-directory in turn. *)
Fixpoint walk (root : path) (n : node) : list (bool * path) :=
  match n with
  | File _ => []
  | Dir entries =>
      let dirnames := filter (fun e => is_dir e.2 = true) entries in
      let filenames := filter (fun e => is_dir e.2 = false) entries in
      ((fun e => (true, root ++ [e.1])) <$> dirnames)
      ++ ((fun e => (false, root ++ [e.1])) <$> filenames)
      ++ (fix below (es : list (string * node)) : list (bool * path) :=
            match es with
            | [] => []
            | (name, child) :: es' =>
                (if is_dir child then walk (root ++ [name]) child else [])
                ++ below es'
            end) entries
  end.

(** ** The world the server runs in *)

Inductive lock_kind : Type := LOCK_SH | LOCK_EX.

(** A value of the Redis hash of pop statistics.  Redis keeps byte strings;
    the constructors record what the bytes spell, which decides what
    [float] and [int] make of them: [hincrby] writes an integer, and the
    text of a Python float never reads as an integer. *)
Inductive rval : Type :=
  | RInt (z : Z)
  | RFloat (q : Qc).

(** What running a shell command does: [Popen] may fail to start it;
    otherwise it runs for [run_time] seconds ([None]: it never finishes)
    and writes [output] to its standard output and standard error;
    [killed_output] is what the pipes hold when the process group is
    killed. *)
Record behaviour : Type := Behaviour {
  start_error : option exn;
  run_time : option Qc;
  output : pybytes * pybytes;
  killed_output : pybytes * pybytes
}.

Record process : Type := Process {
  p_pgid : nat;
  p_behaviour : behaviour;
  p_killed : bool
}.

Inductive event : Type :=
  | EvPointer (key : string) (p : path)
  | EvOpen (fd : nat) (p : path)
  | EvClose (fd : nat)
  | EvFlock (fd : nat) (kind : option lock_kind)
  | EvRmtree (p : path)
  | EvPopen (pid : nat) (args : string) (cwd : path)
  | EvKillpg (pgid : nat).

(** The three Redis keys named in [config] are a field each. *)
Record world : Type := World {
  clock : Qc;                                (* time.time() *)
  fs : node;                                 (* the root directory *)
  fds : gmap nat path;                       (* open file descriptors *)
  locks : gmap nat lock_kind;                (* flock held through a descriptor *)
  CURRENT_TEST_SCRIPT_HASH : gmap string path;
  POP_HASH : gmap string rval;
  USER_LIST : list pystr;
  rq_queues : list (string * nat);           (* rq queues and their lengths *)
  procs : gmap nat process;                  (* children started by Popen *)
  exec : string -> path -> behaviour;        (* what each command does *)
  trace : list event                         (* what happened, oldest first *)
}.

Definition set_clock (x : Qc) (w : world) : world :=
  World x (fs w) (fds w) (locks w) (CURRENT_TEST_SCRIPT_HASH w) (POP_HASH w)
        (USER_LIST w) (rq_queues w) (procs w) (exec w) (trace w).
Definition set_fs (x : node) (w : world) : world :=
  World (clock w) x (fds w) (locks w) (CURRENT_TEST_SCRIPT_HASH w) (POP_HASH w)
        (USER_LIST w) (rq_queues w) (procs w) (exec w) (trace w).
Definition set_fds (x : gmap nat path) (w : world) : world :=
  World (clock w) (fs w) x (locks w) (CURRENT_TEST_SCRIPT_HASH w) (POP_HASH w)
        (USER_LIST w) (rq_queues w) (procs w) (exec w) (trace w).
Definition set_locks (x : gmap nat lock_kind) (w : world) : world :=
  World (clock w) (fs w) (fds w) x (CURRENT_TEST_SCRIPT_HASH w) (POP_HASH w)
        (USER_LIST w) (rq_queues w) (procs w) (exec w) (trace w).
Definition set_script_hash (x : gmap string path) (w : world) : world :=
  World (clock w) (fs w) (fds w) (locks w) x (POP_HASH w)
        (USER_LIST w) (rq_queues w) (procs w) (exec w) (trace w).
Definition set_pop_hash (x : gmap string rval) (w : world) : world :=
  World (clock w) (fs w) (fds w) (locks w) (CURRENT_TEST_SCRIPT_HASH w) x
        (USER_LIST w) (rq_queues w) (procs w) (exec w) (trace w).
Definition set_user_list (x : list pystr) (w : world) : world :=
  World (clock w) (fs w) (fds w) (locks w) (CURRENT_TEST_SCRIPT_HASH w)
        (POP_HASH w) x (rq_queues w) (procs w) (exec w) (trace w).
Definition set_procs (x : gmap nat process) (w : world) : world :=
  World (clock w) (fs w) (fds w) (locks w) (CURRENT_TEST_SCRIPT_HASH w)
        (POP_HASH w) (USER_LIST w) (rq_queues w) x (exec w) (trace w).
Definition log (e : event) (w : world) : world :=
  World (clock w) (fs w) (fds w) (locks w) (CURRENT_TEST_SCRIPT_HASH w)
        (POP_HASH w) (USER_LIST w) (rq_queues w) (procs w) (exec w)
        (trace w ++ [e]).

(** ** The monad of effectful code *)

(** Code over a state [S] that returns, raises or never comes back. *)
Definition St (S A : Type) : Type := S -> S * pyresult A.

(** Code whose state is the world. *)
Abbreviation M := (St world).

Definition ret {S A} (a : A) : St S A := fun s => (s, Return a).

Definition bind {S A B} (m : St S A) (k : A -> St S B) : St S B :=
  fun s =>
    match m s with
    | (s', Return a) => k a s'
    | (s', Raise e) => (s', Raise e)
    | (s', Blocked) => (s', Blocked)
    end.

Notation "'let!' x := m 'in' k" := (bind m (fun x => k))
  (at level 10, x pattern, m at level 100, k at level 200).
Notation "m ';;' k" := (bind m (fun _ => k))
  (at level 100, k at level 200, right associativity).

Definition raise {S A} (e : exn) : St S A := fun s => (s, Raise e).
Definition block {S A} : St S A := fun s => (s, Blocked).
Definition gets {S A} (f : S -> A) : St S A := fun s => (s, Return (f s)).
Definition modify {S} (f : S -> S) : St S unit := fun s => (f s, Return tt).

(** A pure computation that may raise, or whose loop ran out of fuel. *)
Definition lift_result {S A} (r : option (pyresult A)) : St S A :=
  fun s => (s, match r with Some r => r | None => Blocked end).

(** [try: body except Exception as e: handler(e)] *)
Definition try_except {S A} (body : St S A) (handler : exn -> St S A)
  : St S A :=
  fun s =>
    match body s with
    | (s', Raise e) => handler e s'
    | r => r
    end.

(** [try: body except cls: handler] for one exception class. *)
Definition try_except_class {S A} (cls : string) (body : St S A)
    (handler : St S A) : St S A :=
  try_except body
    (fun e => if bool_decide (exn_class e = cls) then handler else raise e).

(** [try: body finally: final].  An exception raised by [final] replaces
    the outcome of [body]; nothing runs after a call that never returns. *)
Definition try_finally {S A} (body : St S A) (final : St S unit) : St S A :=
  fun s =>
    match body s with
    | (s', Blocked) => (s', Blocked)
    | (s', r) =>
        match final s' with
        | (s'', Return _) => (s'', r)
        | (s'', Raise e) => (s'', Raise e)
        | (s'', Blocked) => (s'', Blocked)
        end
    end.

(** [for x in xs: body(x)] *)
Fixpoint for_each {S A} (xs : list A) (body : A -> St S unit) : St S unit :=
  match xs with
  | [] => ret tt
  | x :: rest => body x ;; for_each rest body
  end.

(** ** Generator-based context managers ([contextlib.contextmanager]) *)

(** A generator stopped at its single [yield]: the value it yielded, the
    code that runs when it is resumed, and the code that runs when an
    exception is thrown into it at the [yield]. *)
Record suspended (A : Type) : Type := Suspended {
  yielded : A;
  resume : M unit;
  throw : exn -> M unit
}.
Arguments Suspended {A} _ _ _.
Arguments yielded {A} _.
Arguments resume {A} _.
Arguments throw {A} _.

(** [yield v; after], outside any [try]: an exception thrown in at the
    [yield] leaves the generator at once, and [after] does not run. *)
Definition yield_then {A} (v : A) (after : M unit) : suspended A :=
  Suspended v after (fun e => raise e).

(** [try: yield v finally: final] *)
Definition yield_finally {A} (v : A) (final : M unit) : suspended A :=
  Suspended v final (fun e => try_finally (raise e) final).

(** [with cm as x: body].  [__enter__] runs the generator to its [yield].
    [__exit__] resumes it when the body finished, and throws the body's
    exception into it otherwise; the exception is suppressed only if the
    generator then finishes without raising. *)
Definition with_ {A} (cm : M (suspended A)) (body : A -> M unit) : M unit :=
  let! g := cm in
  fun w =>
    match body (yielded g) w with
    | (w', Return _) => resume g w'
    | (w', Raise e) => throw g e w'
    | (w', Blocked) => (w', Blocked)
    end.

(** ** Operating-system and Redis primitives *)

(** ** Binary floating point *)

(** A Python [float] is taken by its value, a rational.  An operation on
    floats gives the float nearest to the exact result, a tie going to the
    even significand (IEEE 754 [binary64], 53 bits, down to the subnormal
    range).  Overflow is left out: the floats of this program are times in
    seconds and small counts. *)
Definition round_half_even (x : Q) : Z :=
  let f := Qfloor x in
  match (x - inject_Z f ?= 1 # 2)%Q with
  | Lt => f
  | Gt => (f + 1)%Z
  | Eq => if Z.even f then f else (f + 1)%Z
  end.

(** [x * 2 ** k] *)
Definition Qscale (x : Q) (k : Z) : Q :=
  if (0 <=? k)%Z then (x * inject_Z (2 ^ k))%Q
  else (x / inject_Z (2 ^ (- k)))%Q.

(** The float nearest to a positive [x]: [e] is the exponent of [x], and
    the significand is [x] scaled to 53 bits and rounded. *)
Definition b64_pos (x : Q) : Q :=
  let e0 := (Z.log2 (Qnum x) - Z.log2 (Zpos (Qden x)))%Z in
  let e := if Qle_bool (Qscale 1 e0) x then e0 else (e0 - 1)%Z in
  let k := Z.max (e - 52) (-1074) in
  Qscale (inject_Z (round_half_even (Qscale x (- k)))) k.

Definition b64 (q : Qc) : Qc :=
  match Qnum q with
  | Z0 => q
  | Zpos _ => Q2Qc (Qred (b64_pos q))
  | Zneg _ => Q2Qc (Qred (- b64_pos (- q)))
  end.

Arguments b64 : simpl never.

(** [a - b], [a * b] and [a / b] on floats. *)
Definition fsub (a b : Qc) : Qc := b64 (a - b)%Qc.
Definition fmul (a b : Qc) : Qc := b64 (a * b)%Qc.
Definition fdiv (a b : Qc) : Qc := b64 (a / b)%Qc.

(** [round(x, ndigits)] for a float: the decimal with [ndigits] places
    nearest to the value of [x], a tie going to the even last digit, read
    back as a float. *)
Definition py_round (x : Qc) (ndigits : nat) : Qc :=
  let p := inject_Z (10 ^ Z.of_nat ndigits) in
  b64 (Q2Qc (inject_Z (round_half_even (x * p)) / p)).

(** [time.time()]: the time as a float. *)
Definition time_time : M Qc := gets (fun w => b64 (clock w)).

(** [os.open(path, os.O_RDONLY)]; the path read from Redis may be [None]. *)
Definition os_open (p : option path) : M nat :=
  match p with
  | None => raise (TypeError "open: path should be string, bytes or os.PathLike, not NoneType")
  | Some p =>
      fun w =>
        match lookup_node p (fs w) with
        | None => (w, Raise FileNotFoundError)
        | Some _ =>
            let fd := fresh (dom (fds w)) in
            (log (EvOpen fd p) (set_fds (<[fd := p]> (fds w)) w), Return fd)
        end
  end.

(** [os.close(fd)]; closing a descriptor drops the lock held through it. *)
Definition os_close (fd : nat) : M unit :=
  fun w =>
    match fds w !! fd with
    | None => (w, Raise (OSError "[Errno 9] Bad file descriptor"))
    | Some _ =>
        (log (EvClose fd)
           (set_locks (delete fd (locks w)) (set_fds (delete fd (fds w)) w)),
         Return tt)
    end.

(** Does a lock held through another descriptor on the same file stand in
    the way of a lock of kind [k] through [fd]? *)
Definition lock_conflict (w : world) (fd : nat) (p : path) (k : lock_kind)
  : bool :=
  existsb
    (fun '(fd', k') =>
       bool_decide (fd' ≠ fd) && bool_decide (fds w !! fd' = Some p)
       && match k, k' with LOCK_SH, LOCK_SH => false | _, _ => true end)
    (map_to_list (locks w)).

(** [fcntl.flock(fd, op)]; [None] is [LOCK_UN].  A lock that cannot be
    granted makes the caller wait. *)
Definition flock (fd : nat) (op : option lock_kind) : M unit :=
  fun w =>
    match fds w !! fd with
    | None => (w, Raise (OSError "[Errno 9] Bad file descriptor"))
    | Some p =>
        match op with
        | None =>
            (log (EvFlock fd None) (set_locks (delete fd (locks w)) w),
             Return tt)
        | Some k =>
            if lock_conflict w fd p k then (w, Blocked)
            else (log (EvFlock fd (Some k))
                    (set_locks (<[fd := k]> (locks w)) w), Return tt)
        end
    end.

(** [shutil.rmtree(path, onerror=onerror)]: a failure is handed to
    [onerror], and the tree is removed otherwise.  When [onerror] returns,
    so does [rmtree]. *)
Definition rmtree (p : option path) (onerror : exn -> M unit) : M unit :=
  match p with
  | None => onerror (TypeError "lstat: path should be string, bytes or os.PathLike, not NoneType")
  | Some p =>
      fun w =>
        match lookup_node p (fs w) with
        | None => onerror FileNotFoundError w
        | Some (File _) => onerror NotADirectoryError w
        | Some (Dir _) =>
            match set_node p None (fs w) with
            | Some root => (log (EvRmtree p) (set_fs root w), Return tt)
            | None => onerror FileNotFoundError w
            end
        end
  end.

(** [r.hget], [r.hset], [r.hsetnx], [r.hdel], [r.hincrby] on [POP_HASH]. *)
Definition pop_hget (key : string) : M (option rval) :=
  gets (fun w => POP_HASH w !! key).
Definition pop_hset (key : string) (v : rval) : M unit :=
  modify (fun w => set_pop_hash (<[key := v]> (POP_HASH w)) w).
Definition pop_hsetnx (key : string) (v : rval) : M unit :=
  modify (fun w =>
    match POP_HASH w !! key with
    | Some _ => w
    | None => set_pop_hash (<[key := v]> (POP_HASH w)) w
    end).
Definition pop_hdel (key : string) : M unit :=
  modify (fun w => set_pop_hash (delete key (POP_HASH w)) w).
Definition pop_hincrby (key : string) (amount : Z) : M unit :=
  fun w =>
    match POP_HASH w !! key with
    | None => (set_pop_hash (<[key := RInt amount]> (POP_HASH w)) w, Return tt)
    | Some (RInt z) =>
        (set_pop_hash (<[key := RInt (z + amount)]> (POP_HASH w)) w, Return tt)
    | Some (RFloat _) => (w, Raise (ResponseError "hash value is not an integer"))
    end.

(** [r.blpop(config.USER_LIST)]: waits while the list is empty. *)
Definition blpop_user : M pystr :=
  fun w =>
    match USER_LIST w with
    | [] => (w, Blocked)
    | user_data :: rest => (set_user_list rest w, Return user_data)
    end.

(** [r.rpush(config.USER_LIST, user_data)] *)
Definition rpush_user (user_data : pystr) : M unit :=
  modify (fun w => set_user_list (USER_LIST w ++ [user_data]) w).

(** [subprocess.Popen(args, start_new_session=True, cwd=cwd, shell=True,
    stdout=PIPE, stderr=PIPE)]: the child leads a new process group. *)
Definition Popen (args : string) (cwd : path) : M nat :=
  fun w =>
    match lookup_node cwd (fs w) with
    | None => (w, Raise FileNotFoundError)
    | Some (File _) => (w, Raise NotADirectoryError)
    | Some (Dir _) =>
        let b := exec w args cwd in
        match start_error b with
        | Some e => (w, Raise e)
        | None =>
            let pid := fresh (dom (procs w)) in
            (log (EvPopen pid args cwd)
               (set_procs (<[pid := Process pid b false]> (procs w)) w),
             Return pid)
        end
    end.

Definition Qc_ltb (a b : Qc) : bool :=
  match (a ?= b)%Qc with Lt => true | _ => false end.

(** What [communicate] returns for the contents of the two pipes: the
    process was started without [text], [encoding] or
    [universal_newlines], so both are [bytes]. *)
Definition read_pipes (x : pybytes * pybytes) : pydata * pydata :=
  (Bytes x.1, Bytes x.2).

(** [proc.communicate(timeout=timeout)] *)
Definition communicate (pid : nat) (timeout : option Qc)
  : M (pydata * pydata) :=
  fun w =>
    match procs w !! pid with
    | None => (w, Raise (ValueError "Invalid file object"))
    | Some p =>
        if p_killed p
        then (w, Return (read_pipes (killed_output (p_behaviour p))))
        else
          match run_time (p_behaviour p), timeout with
          | Some rt, None =>
              (set_clock (clock w + rt)%Qc w,
               Return (read_pipes (output (p_behaviour p))))
          | Some rt, Some t =>
              if Qc_ltb t rt
              then (set_clock (clock w + t)%Qc w, Raise TimeoutExpired)
              else (set_clock (clock w + rt)%Qc w,
                    Return (read_pipes (output (p_behaviour p))))
          | None, Some t => (set_clock (clock w + t)%Qc w, Raise TimeoutExpired)
          | None, None => (w, Blocked)
          end
    end.

(** [os.getpgid(proc.pid)] *)
Definition os_getpgid (pid : nat) : M nat :=
  fun w =>
    match procs w !! pid with
    | Some p => (w, Return (p_pgid p))
    | None => (w, Raise ProcessLookupError)
    end.

(** [os.killpg(pgrp, signal.SIGKILL)]: every process of the group dies. *)
Definition os_killpg (pgrp : nat) : M unit :=
  fun w =>
    if bool_decide (map_Exists (fun _ p => p_pgid p = pgrp) (procs w)) then
      (log (EvKillpg pgrp)
         (set_procs
            ((fun p => if bool_decide (p_pgid p = pgrp)
                       then Process (p_pgid p) (p_behaviour p) true else p)
               <$> procs w) w),
       Return tt)
    else (w, Raise ProcessLookupError).

(** ** Paths and formatting *)

Fixpoint split_on (sep : ascii) (s cur : string) : list string :=
  match s with
  | EmptyString => [cur]
  | String c t =>
      if bool_decide (c = sep) then cur :: split_on sep t EmptyString
      else split_on sep t (cur +:+ String c EmptyString)
  end.

(** The components of a path written with slashes. *)
Definition split_path (s : string) : path :=
  filter (fun c => c ≠ EmptyString) (split_on "/" s EmptyString).

(** [os.path.join(base, name)] *)
Definition os_path_join (base : path) (name : string) : path :=
  if String.prefix "/" name then split_path name else base ++ split_path name.

(** [str(n)] for an integer. *)
Definition str_of_Z (n : Z) : string :=
  DecimalString.NilZero.string_of_int (Z.to_int n).

(** [int(x)] for a float: truncation towards zero. *)
Definition int_of_Qc (x : Qc) : Z := Z.quot (Qnum x) (Zpos (Qden x)).

(** [float(n)] for an integer. *)
Definition Qc_of_Z (n : Z) : Qc := Q2Qc (inject_Z n).

(** [cmd.format(arg)] for the templates [test_run_command] builds: text,
    doubled braces and empty replacement fields.  A second empty field
    finds no argument; any other use of a brace is rejected. *)
Fixpoint format_from (template : string) (arg : string) (used : bool)
  : pyresult string :=
  match template with
  | EmptyString => Return EmptyString
  | String "{" (String "{" t) =>
      match format_from t arg used with
      | Return r => Return (String "{" r) | other => other end
  | String "}" (String "}" t) =>
      match format_from t arg used with
      | Return r => Return (String "}" r) | other => other end
  | String "{" (String "}" t) =>
      if used then Raise (builtin_exn "IndexError" "tuple index out of range")
      else match format_from t arg true with
           | Return r => Return (arg +:+ r) | other => other end
  | String "{" _ =>
      Raise (ValueError "unsupported replacement field")
  | String "}" _ =>
      Raise (ValueError "Single '}' encountered in format string")
  | String c t =>
      match format_from t arg used with
      | Return r => Return (String c r) | other => other end
  end.

Definition format (template arg : string) : pyresult string :=
  format_from template arg false.

(** ** server/autotest_server.py: helper functions *)

Record Config : Type := {
  WORKING_DIR : path;
  TEST_SCRIPT_DIR_NAME : string;
  TEST_RESULT_DIR_NAME : string
}.

Definition TEST_SCRIPT_DIR (config : Config) : path :=
  os_path_join (WORKING_DIR config) (TEST_SCRIPT_DIR_NAME config).

Fixpoint _clean_dir_name (name : string) : string :=
  match name with
  | EmptyString => EmptyString
  | String c t =>
      String (if bool_decide (c = "/"%char) then "_"%char else c)
             (_clean_dir_name t)
  end.

Definition _get_test_script_key (markus_address assignment_id : string)
  : string :=
  let clean_markus_address := _clean_dir_name markus_address in
  clean_markus_address +:+ "_" +:+ assignment_id.

Definition _test_script_directory (markus_address assignment_id : string)
    (set_to : option path) : M (option path) :=
  let key := _get_test_script_key markus_address assignment_id in
  match set_to with
  | Some d =>
      modify (fun w =>
        log (EvPointer key d)
          (set_script_hash (<[key := d]> (CURRENT_TEST_SCRIPT_HASH w)) w))
  | None => ret tt
  end ;;
  gets (fun w => CURRENT_TEST_SCRIPT_HASH w !! key).

(** The entries [os.walk] finds below [root_dir], read in one go; [true]
    marks a directory. *)
Definition _recursive_iglob (root_dir : path) : M (list (bool * path)) :=
  gets (fun w =>
    match lookup_node root_dir (fs w) with
    | Some n => walk root_dir n
    | None => []
    end).

(** [os.makedirs(target, exist_ok=True)] *)
Definition os_makedirs (target : path) : M unit :=
  fun w =>
    match makedirs_node target (fs w) with
    | Some root => (set_fs root w, Return tt)
    | None => (w, Raise (builtin_exn "FileExistsError" "[Errno 17] File exists"))
    end.

(** [shutil.copy2(src, target)] *)
Definition shutil_copy2 (src target : path) : M unit :=
  fun w =>
    match lookup_node src (fs w) with
    | Some (File content) =>
        let target :=
          match lookup_node target (fs w) with
          | Some (Dir _) => target ++ drop (length src - 1) src
          | _ => target
          end in
        match lookup_node (take (length target - 1) target) (fs w) with
        | Some (Dir _) =>
            match set_node target (Some (File content)) (fs w) with
            | Some root => (set_fs root w, Return tt)
            | None => (w, Raise FileNotFoundError)
            end
        | Some (File _) => (w, Raise NotADirectoryError)
        | None => (w, Raise FileNotFoundError)
        end
    | Some (Dir _) => (w, Raise IsADirectoryError)
    | None => (w, Raise FileNotFoundError)
    end.

Definition _copy_tree (src dst : path) : M unit :=
  let! entries := _recursive_iglob src in
  for_each entries (fun '(fd, file_or_dir) =>
    let target := dst ++ drop (length src) file_or_dir in
    if (fd : bool) then os_makedirs target
    else shutil_copy2 file_or_dir target).

(** [json.loads(s)]: one value, with white space around it and nothing else. *)
Definition json_loads (s : pystr) : pyresult json :=
  match raw_decode_from s (Json._w s 0) with
  | Return (obj, end_) =>
      if bool_decide (Json._w s end_ = length s) then Return obj
      else Raise JSONDecodeError
  | Raise e => Raise e
  | Blocked => Blocked
  end.

Definition fd_open (path : option path) : M (suspended nat) :=
  let! fd := os_open path in
  ret (yield_then fd (os_close fd)).

Definition fd_lock (file_descriptor : nat) (exclusive : bool)
  : M (suspended unit) :=
  flock file_descriptor (Some (if exclusive then LOCK_EX else LOCK_SH)) ;;
  ret (yield_then tt (flock file_descriptor None)).

(** The value is decoded inside the [try], before the generator yields. *)
Definition tester_user : M (suspended json) :=
  let! user_data := blpop_user in
  match json_loads user_data with
  | Return user => ret (yield_finally user (rpush_user user_data))
  | Raise e => try_finally (raise e) (rpush_user user_data)
  | Blocked => block
  end.

(** ** server/autotest_server.py: maintenance functions *)

Definition update_pop_interval_stat (queue_name : string) : M unit :=
  let! now := time_time in
  pop_hsetnx (queue_name +:+ "_start") (RFloat now) ;;
  pop_hset (queue_name +:+ "_last") (RFloat now) ;;
  pop_hincrby (queue_name +:+ "_count") 1.

Definition clear_pop_interval_stat (queue_name : string) : M unit :=
  pop_hdel (queue_name +:+ "_start") ;;
  pop_hset (queue_name +:+ "_last") (RInt 0) ;;
  pop_hset (queue_name +:+ "_count") (RInt 0).

Definition get_pop_interval_stat (queue_name : string)
  : M (option rval * option rval * option rval) :=
  let! start := pop_hget (queue_name +:+ "_start") in
  let! last := pop_hget (queue_name +:+ "_count") in
  let! count := pop_hget (queue_name +:+ "_count") in
  ret (start, last, count).

(** [float(x)] and [int(x)] on what [hget] returned. *)
Definition py_float {S} (x : option rval) : St S Qc :=
  match x with
  | None => raise (TypeError "float() argument must be a string or a number, not 'NoneType'")
  | Some (RInt z) => ret (b64 (Qc_of_Z z))
  | Some (RFloat q) => ret q
  end.

Definition py_int {S} (x : option rval) : St S Z :=
  match x with
  | None => raise (TypeError "int() argument must be a string, a bytes-like object or a number, not 'NoneType'")
  | Some (RInt z) => ret z
  | Some (RFloat _) => raise (ValueError "invalid literal for int() with base 10")
  end.

(** [None] is Python's [None]. *)
Definition get_avg_pop_interval (queue_name : string) : M (option Qc) :=
  let! (start, last, count) := get_pop_interval_stat queue_name in
  let! converted :=
    try_except_class "TypeError"
      (let! start := py_float start in
       let! last := py_float last in
       let! count := py_int count in
       ret (Some (start, last, count)))
      (ret None) in
  match converted with
  | None => ret None
  | Some (start, last, count) =>
      let count := (count - 1)%Z in
      ret (Some (if bool_decide (count ≠ 0%Z)
                 then fdiv (fsub last start) (b64 (Qc_of_Z count))
                 else 0%Qc))
  end.

(** [rq.Queue.all()] lists [rq_queues]; the failed queue is the one called
    [failed]. *)
Definition clean_up : M unit :=
  let! queues := gets rq_queues in
  for_each queues (fun '(name, count) =>
    if bool_decide (name ≠ "failed") then
      if bool_decide (count = 0) then clear_pop_interval_stat name
      else ret tt
    else ret tt).

Definition clean_after {A} (func : M A) : M unit :=
  try_finally (func ;; ret tt) clean_up.

(** ** server/autotest_server.py: running tests *)

Definition copy_test_script_files (markus_address assignment_id : string)
    (tests_path : path) : M unit :=
  let! test_script_dir := _test_script_directory markus_address assignment_id None in
  with_ (fd_open test_script_dir) (fun fd =>
    with_ (fd_lock fd false) (fun _ =>
      match test_script_dir with
      | Some d => _copy_tree d tests_path
      | None => raise (TypeError "expected str, bytes or os.PathLike object, not NoneType")
      end)).

Definition join_spaces (parts : list string) : string :=
  match parts with
  | [] => EmptyString
  | p :: rest => foldl (fun acc x => acc +:+ " " +:+ x) p rest
  end.

Definition test_run_command (markus_address user_api_key assignment_id
    group_id group_repo_name : string) (test_username : option string)
  : string :=
  let cmd := join_spaces ["./{}"; markus_address; user_api_key;
                          assignment_id; group_id; group_repo_name] in
  match test_username with
  | Some test_username =>
      join_spaces ["sudo"; "-u"; test_username; "--"; "bash"; "-c";
                   String (ascii_of_N QUOTE) cmd +:+ String (ascii_of_N QUOTE) EmptyString]
  | None => cmd
  end.

(** The dictionary [create_test_script_result] returns. *)
Module Result.
Record t : Type := mk {
    file_name : string;
    time : Z;
    timeout : option Qc;
    tests : list json;
    stderr : option pydata;
    malformed : option pydata
  }.
End Result.

(** [loads_partial_json(stdout, dict)] for either kind of [stdout]. *)
Definition loads_dicts (stdout : pydata)
  : option (pyresult (list json * bool)) :=
  match stdout with
  | Text s => loads_partial_json s (Some TDict)
  | Bytes b => loads_partial_json_bytes b (Some TDict)
  end.

Definition create_test_script_result (file_name : string)
    (stdout stderr : pydata) (run_time : Z) (timeout : option Qc)
  : option (pyresult Result.t) :=
  match loads_dicts stdout with
  | Some (Return (test_results, malformed)) =>
      Some (Return
        {| Result.file_name := file_name;
           Result.time := run_time;
           Result.timeout := timeout;
           Result.tests := test_results;
           Result.stderr := if data_truthy stderr then Some stderr else None;
           Result.malformed := if malformed then Some stdout else None |})
  | Some (Raise e) => Some (Raise e)
  | Some Blocked => Some Blocked
  | None => None
  end.

(** The local variables of [run_test_scripts] that are assigned more than
    once. *)
Record frame : Type := Frame {
  results : list Result.t;
  out : pydata;
  err : pydata;
  timeout : option Qc
}.

Definition set_results (x : list Result.t) (f : frame) : frame :=
  Frame x (out f) (err f) (timeout f).
Definition set_out_err (x : pydata * pydata) (f : frame) : frame :=
  Frame (results f) x.1 x.2 (timeout f).
Definition set_err (x : pydata) (f : frame) : frame :=
  Frame (results f) (out f) x (timeout f).
Definition set_timeout (x : option Qc) (f : frame) : frame :=
  Frame (results f) (out f) (err f) x.

(** Code of a function body: its frame and the world. *)
Abbreviation F := (St (frame * world)).

Definition lift {A} (m : M A) : F A :=
  fun '(f, w) => let '(w', r) := m w in ((f, w'), r).
Definition local {A} (proj : frame -> A) : F A := gets (fun s => proj s.1).
Definition assign (upd : frame -> frame) : F unit :=
  modify (fun s => (upd s.1, s.2)).

(** [e.message] *)
Definition getattr_message {S} (e : exn) : St S pystr :=
  match exn_message e with
  | Some m => ret m
  | None => raise (AttributeError "object has no attribute 'message'")
  end.

(** [x += s] for a [str] [s]: [bytes] and [str] do not add up. *)
Definition py_add_str {S} (x : pydata) (s : pystr) : St S pydata :=
  match x with
  | Text t => ret (Text (t ++ s))
  | Bytes _ => raise (TypeError "can't concat str to bytes")
  end.

(** [int(round(x, 3) * 1000)] for a float [x]: rounding to three places
    and the product are float operations, and [int] drops the fraction, so
    the result can fall one short of the nearest millisecond. *)
Definition milliseconds (x : Qc) : Z :=
  int_of_Qc (fmul (py_round x 3) (Qc_of_Z 1000)).

Definition run_test_scripts_body (cmd : string)
    (test_scripts : list (string * option Qc)) (tests_path : path)
  : F (list Result.t) :=
  assign (set_results []) ;;
  for_each test_scripts (fun '(file_name, timeout_) =>
    assign (set_timeout timeout_) ;;
    assign (set_out_err (Text [], Text [])) ;;
    let! start := lift time_time in
    assign (set_timeout None) ;;
    try_finally
      (try_except
         (let! args := lift_result (Some (format cmd file_name)) in
          let! proc := lift (Popen args tests_path) in
          try_except_class "TimeoutExpired"
            (let! t := local timeout in
             let! oe := lift (communicate proc t) in
             assign (set_out_err oe))
            (let! pgrp := lift (os_getpgid proc) in
             lift (os_killpg pgrp) ;;
             let! oe := lift (communicate proc None) in
             assign (set_out_err oe) ;;
             let! t := local timeout in
             assign (set_timeout t)))
         (fun e =>
            let! message := getattr_message e in
            let! err_ := local err in
            let! sum := py_add_str err_ ([10; 10]%N ++ message) in
            assign (set_err sum)))
      (let! now := lift time_time in
       let duration := milliseconds (fsub now start) in
       let! f := local id in
       let! r := lift_result
                   (create_test_script_result file_name (out f) (err f)
                      duration (timeout f)) in
       assign (set_results (results f ++ [r])))) ;;
  local results.

Definition run_test_scripts (cmd : string)
    (test_scripts : list (string * option Qc)) (tests_path : path)
  : M (list Result.t) :=
  fun w =>
    let '((_, w'), r) :=
      run_test_scripts_body cmd test_scripts tests_path
        (Frame [] (Text []) (Text []) None, w) in
    (w', r).

(** ** server/autotest_server.py: updating test scripts *)

(** [excinfo] is reduced to the exception instance, whose class is
    [err_type]. *)
Definition _ignore_missing_dir_error (excinfo : exn) : M unit :=
  if bool_decide (exn_class excinfo = "FileNotFoundError") then ret tt
  else raise excinfo.

Definition new_test_script_dir (config : Config)
    (markus_address assignment_id : string) (now : Qc) : path :=
  let test_script_dir_name := "test_scripts_" +:+ str_of_Z (int_of_Qc now) in
  let clean_markus_address := _clean_dir_name markus_address in
  os_path_join
    (os_path_join
       (os_path_join (TEST_SCRIPT_DIR config) clean_markus_address)
       assignment_id)
    test_script_dir_name.

(** The body of [update_test_scripts], before [clean_after] wraps it. *)
Definition update_test_scripts_body (config : Config) (files_path : path)
    (assignment_id markus_address : string) : M unit :=
  let! now := time_time in
  let new_dir := new_test_script_dir config markus_address assignment_id now in
  _copy_tree files_path new_dir ;;
  let! old_test_script_dir :=
    _test_script_directory markus_address assignment_id None in
  _test_script_directory markus_address assignment_id (Some new_dir) ;;
  with_ (fd_open old_test_script_dir) (fun fd =>
    with_ (fd_lock fd true) (fun _ =>
      rmtree old_test_script_dir _ignore_missing_dir_error)).

Definition update_test_scripts (config : Config) (files_path : path)
    (assignment_id markus_address : string) : M unit :=
  clean_after
    (update_test_scripts_body config files_path assignment_id markus_address).

(** ** Sample inputs and harnesses *)

Definition no_output : behaviour :=
  Behaviour None (Some 0%Qc) ([], []) ([], []).

(** Nothing on disk, nothing in Redis, nothing running. *)
Definition empty_world : world :=
  World 0%Qc (Dir []) ∅ ∅ ∅ ∅ [] [] ∅ (fun _ _ => no_output) [].

(** Three jobs popped from [queue_name] at times 0, 2 and 5, and the
    average interval asked for after the third. *)
Definition three_pops (queue_name : string) : M (option Qc) :=
  modify (set_clock (Qc_of_Z 0)) ;;
  update_pop_interval_stat queue_name ;;
  modify (set_clock (Qc_of_Z 2)) ;;
  update_pop_interval_stat queue_name ;;
  modify (set_clock (Qc_of_Z 5)) ;;
  update_pop_interval_stat queue_name ;;
  get_avg_pop_interval queue_name.

(** A worker that borrows a tester user for each job in turn; a job that
    fails does not stop the worker. *)
Fixpoint acquire_release_pairs (bodies : list (json -> M unit)) : M unit :=
  match bodies with
  | [] => ret tt
  | body :: rest =>
      try_except (with_ tester_user body) (fun _ => ret tt) ;;
      acquire_release_pairs rest
  end.

(** A server with one version of the test scripts of assignment 1 of
    [host], installed at second 100, an upload directory and a sandbox.
    [a.py] prints a passing result at once, [b.py] sleeps for five
    seconds; the clock shows 100.5 seconds. *)
Definition scripts_100 : path :=
  ["srv"; "scripts"; "host"; "1"; "test_scripts_100"].

Definition sample_config : Config :=
  {| WORKING_DIR := ["srv"]; TEST_SCRIPT_DIR_NAME := "scripts";
     TEST_RESULT_DIR_NAME := "results" |}.

Definition sample_exec (args : string) (cwd : path) : behaviour :=
  if bool_decide (args = "./a.py") then
    Behaviour None (Some 0%Qc) (pyq "{'status': 'pass'}", []) ([], [])
  else if bool_decide (args = "./b.py") then
    Behaviour None (Some (Qc_of_Z 5)) ([], []) ([], [])
  else no_output.

Definition sample_world : world :=
  World (Q2Qc (201 # 2))
    (Dir [("srv", Dir [
       ("scripts", Dir [("host", Dir [("1", Dir [
          ("test_scripts_100", Dir [("test.py", File (py "print(1)"))])])])]);
       ("sandbox", Dir []);
       ("upload", Dir [("test.py", File (py "print(2)"))])])])
    ∅ ∅ {[ "host_1" := scripts_100 ]} ∅
    [pyq "{'username': 'tester', 'working_dir': '/srv/sandbox'}"]
    [] ∅ sample_exec [].

(** Three jobs: one returns, one fails, one changes the world. *)
Definition sample_bodies : list (json -> M unit) :=
  [ (fun _ => ret tt); (fun _ => raise FileNotFoundError);
    (fun _ => modify (set_clock 1%Qc)) ].

(** The sample server after the installed version of the test scripts was
    removed behind the back of a writer that had already opened it through
    descriptor 3. *)
Definition vanished_world : world :=
  World (Q2Qc (201 # 2))
    (Dir [("srv", Dir [("scripts", Dir [("host", Dir [("1", Dir [])])])])])
    {[ 3 := scripts_100 ]} ∅ {[ "host_1" := scripts_100 ]} ∅ [] [] ∅
    sample_exec [].

(** The sample server at second 200, with an upload that holds a
    sub-directory beside its script. *)
Definition upload_world : world :=
  set_clock (Qc_of_Z 200)
    (set_fs
       (Dir [("srv", Dir [
          ("scripts", Dir [("host", Dir [("1", Dir [
             ("test_scripts_100", Dir [("test.py", File (py "print(1)"))])])])]);
          ("sandbox", Dir []);
          ("upload", Dir [("lib", Dir []);
                          ("test.py", File (py "print(2)"))])])])
       sample_world).

(** The same server when the installed version that the pointer names is
    gone from the disk. *)
Definition orphaned_world : world :=
  set_fs
    (Dir [("srv", Dir [
       ("scripts", Dir [("host", Dir [("1", Dir [])])]);
       ("sandbox", Dir []);
       ("upload", Dir [("lib", Dir []);
                       ("test.py", File (py "print(2)"))])])])
    upload_world.

(** Two updates of the scripts of assignment 1 within one second, and a
    third one a second later. *)
Definition three_updates : M unit :=
  update_test_scripts sample_config ["srv"; "upload"] "1" "host" ;;
  update_test_scripts sample_config ["srv"; "upload"] "1" "host" ;;
  modify (fun w => set_clock (clock w + 1)%Qc w) ;;
  update_test_scripts sample_config ["srv"; "upload"] "1" "host".

(** The sample server when starting [a.py] fails with an exception of a
    class that has a [message] attribute. *)
Definition custom_error : exn :=
  Exn "CustomError" (py "boom") (Some (py "boom")).

Definition custom_error_world : world :=
  World (clock sample_world) (fs sample_world) ∅ ∅ ∅ ∅ [] [] ∅
    (fun args cwd =>
       if bool_decide (args = "./a.py")
       then Behaviour (Some custom_error) None ([], []) ([], [])
       else sample_exec args cwd)
    [].

(** The sample server when [b.py] never finishes. *)
Definition hanging_world : world :=
  World (clock sample_world) (fs sample_world) ∅ ∅ ∅ ∅ [] [] ∅
    (fun args cwd =>
       if bool_decide (args = "./b.py")
       then Behaviour None None ([], []) ([], [])
       else sample_exec args cwd)
    [].

(** ** Predicates used in the statements *)

(** The exceptions of the decoder that [loads_partial_json] does not
    catch: the limits of the interpreter. *)
Definition decoder_limit_error (e : exn) : Prop :=
  e = RecursionError ∨ e = IntDigitsError.

(** A body that leaves the available tester users as it found them, up to
    their order in the list. *)
Definition keeps_pool (body : json -> M unit) : Prop :=
  ∀ user w, USER_LIST (body user w).1 ≡ₚ USER_LIST w.

(** What the file operations and the queue housekeeping leave alone: the
    registry of script versions, the descriptors, the locks and the
    trace. *)
Definition registry (w : world)
  : gmap string path * gmap nat path * gmap nat lock_kind * list event :=
  (CURRENT_TEST_SCRIPT_HASH w, fds w, locks w, trace w).

(** The process groups killed so far. *)
Definition kills (t : list event) : list nat :=
  omap (fun e => match e with EvKillpg g => Some g | _ => None end) t.

(** [m] keeps the invariant [Inv] of the state, however it ends. *)
Definition keeps {S A} (Inv : S -> Prop) (m : St S A) : Prop :=
  ∀ s, Inv s → Inv (m s).1.

(** Between two scripts: the process groups killed are [k0], and no result
    carries a timeout. *)
Definition quiet (k0 : list nat) (s : frame * world) : Prop :=
  kills (trace s.2) = k0
  ∧ Forall (fun x => Result.timeout x = None) (results s.1).

(** While a script runs, the local [timeout] is [None] as well. *)
Definition quiet_unset (k0 : list nat) (s : frame * world) : Prop :=
  quiet k0 s ∧ timeout s.1 = None.

(** ** Further predicates and harnesses *)

(** A string without braces: [str.format] copies it as it is. *)
Fixpoint brace_free (s : string) : bool :=
  match s with
  | EmptyString => true
  | String c t =>
      negb (bool_decide (c = "{"%char)) && negb (bool_decide (c = "}"%char))
      && brace_free t
  end.

(** A string without a slash. *)
Fixpoint slash_free (s : string) : bool :=
  match s with
  | EmptyString => true
  | String c t => negb (bool_decide (c = "/"%char)) && slash_free t
  end.

(** The text after the first word of [' '.join(words)]. *)
Fixpoint spaced (words : list string) : string :=
  match words with
  | [] => EmptyString
  | x :: rest => " " +:+ x +:+ spaced rest
  end.

(** Jobs popped from [queue_name] at the given times, one after the
    other. *)
Definition record_pops (queue_name : string) (times : list Qc) : M unit :=
  for_each times (fun t =>
    modify (set_clock t) ;; update_pop_interval_stat queue_name).

(** The three field names of a queue in [POP_HASH]. *)
Definition stat_suffixes : list string := ["_start"; "_last"; "_count"].

(** The list of tester users after one of them was borrowed and given
    back. *)
Definition next_user (users : list pystr) : list pystr :=
  match users with
  | [] => []
  | user_data :: rest => rest ++ [user_data]
  end.

(** A body that leaves the list of tester users alone and comes back. *)
Definition leaves_pool (body : json -> M unit) : Prop :=
  ∀ user w, USER_LIST (body user w).1 = USER_LIST w
            ∧ (body user w).2 ≠ Blocked.

(** Two paths part ways at some component: neither lies inside the
    other. *)
Fixpoint diverge (p q : path) : bool :=
  match p, q with
  | a :: p', b :: q' => if bool_decide (a = b) then diverge p' q' else true
  | _, _ => false
  end.

(** Copying a directory of files, after the entries [copied] of the
    source: the source is as it was, and the destination lists them over
    what it held. *)
Definition copied_so_far (src dst : path)
    (entries dentries copied : list (string * node)) (w : world) : Prop :=
  lookup_node src (fs w) = Some (Dir entries)
  ∧ ∃ d', lookup_node dst (fs w) = Some (Dir d')
          ∧ ∀ name, lookup_entry name d'
                    = match lookup_entry name copied with
                      | Some _ => lookup_entry name entries
                      | None => lookup_entry name dentries
                      end.

(** * Theorems *)

(** * Facts about the JSON scanner *)

Module JsonFacts.
Import Json.

Lemma ws_run_le (l : pystr) : ws_run l ≤ length l.
Proof. induction l as [|c t IH]; simpl; [lia|]. destruct (is_ws c); simpl; lia. Qed.

Lemma _w_bounds (s : pystr) (pos : nat) :
  pos `min` length s ≤ _w s pos ∧ _w s pos ≤ length s.
Proof.
  unfold _w. pose proof (ws_run_le (drop (pos `min` length s) s)) as H.
  rewrite length_drop in H. lia.
Qed.

Lemma skip_after_bounds (s : pystr) (e : nat) :
  e `min` length s ≤ skip_after s e ∧ (e ≤ length s → e ≤ skip_after s e).
Proof.
  unfold skip_after.
  destruct (s !! e) as [c|] eqn:Hc; [|lia].
  apply lookup_lt_Some in Hc.
  destruct (is_ws c); [|lia].
  destruct (s !! (e + 1)) as [c2|] eqn:Hc2; [|lia].
  apply lookup_lt_Some in Hc2.
  destruct (is_ws c2); [|lia].
  pose proof (_w_bounds s (e + 1 + 1)). lia.
Qed.

Lemma scan_chunks_lb (n : nat) : ∀ (rest : pystr) (e : nat) (chunks r : pystr) (e' : nat),
  length rest ≤ n → scan_chunks rest e chunks = Some (r, e') → e < e'.
Proof.
  induction n as [|n IH]; intros rest e chunks r e' Hn H.
  - destruct rest; simpl in *; [done|lia].
  - destruct rest as [|c rest1]; [done|]. simpl in Hn.
    cbn [scan_chunks] in H.
    repeat (case_match; try done; simplify_eq; cbn [length] in * ).
    all: try lia.
    all: match goal with
      | H : scan_chunks _ _ _ = Some _ |- _ => apply IH in H; cbn [length] in *; try lia
      end.
Qed.

Lemma py_scanstring_lb (s : pystr) (e : nat) (r : pystr) (e' : nat) :
  py_scanstring s e = Some (r, e') → e < e' ∧ e < length s.
Proof.
  unfold py_scanstring. intros H. split.
  - eapply scan_chunks_lb; [|exact H]. reflexivity.
  - destruct (drop e s) eqn:Hd; simpl in H; [done|].
    destruct (decide (e < length s)); [done|].
    rewrite drop_ge in Hd by lia. done.
Qed.

Lemma match_integer_nonempty (l integer : pystr) :
  match_integer l = Some integer →
  ∃ c t, l = c :: t ∧ integer ≠ [] ∧ ((c = ord "-")%N ∨ is_digit c = true).
Proof.
  unfold match_integer. intros H.
  destruct l as [|c t]; [done|]. exists c, t. split; [done|].
  destruct (c =? ord "-")%N eqn:Hc.
  - apply N.eqb_eq in Hc. destruct t as [|d t']; simpl in H; [done|].
    repeat (case_match; simplify_eq); simpl in *; simplify_eq; eauto.
  - repeat (case_match; simplify_eq); simpl in *; simplify_eq; split; eauto.
    right. unfold is_digit. match goal with H : (c =? _)%N = true |- _ => apply N.eqb_eq in H; subst end. done.
Qed.

Lemma match_number_nonempty (l integer frac exp : pystr) :
  match_number l = Some (integer, frac, exp) →
  ∃ c t, l = c :: t ∧ 0 < length integer ∧ ((c = ord "-")%N ∨ is_digit c = true).
Proof.
  unfold match_number. intros H.
  destruct (match_integer l) as [i|] eqn:Hi; simpl in H; [|done].
  simplify_eq. apply match_integer_nonempty in Hi as (c & t & -> & Hne & Hc).
  exists c, t. split; [done|]. split; [|done].
  destruct integer; [done|simpl; lia].
Qed.

Ltac w_bounds :=
  repeat match goal with
  | H : context [_w ?s ?p] |- _ =>
      let x := fresh "wp" in
      pose proof (_w_bounds s p); set (x := _w s p) in *; clearbody x
  | |- context [_w ?s ?p] =>
      let x := fresh "wp" in
      pose proof (_w_bounds s p); set (x := _w s p) in *; clearbody x
  | H : context [skip_after ?s ?p] |- _ =>
      let x := fresh "sp" in
      pose proof (skip_after_bounds s p); set (x := skip_after s p) in *;
      clearbody x
  | |- context [skip_after ?s ?p] =>
      let x := fresh "sp" in
      pose proof (skip_after_bounds s p); set (x := skip_after s p) in *;
      clearbody x
  end.

Ltac lookup_bounds :=
  repeat match goal with
  | H : bool_decide _ = true |- _ => apply bool_decide_eq_true in H
  | H : bool_decide _ = false |- _ => clear H
  | H : negb _ = false |- _ => apply negb_false_iff in H
  | H : negb _ = true |- _ => clear H
  | H : ?s !! ?e = Some _ |- _ => apply lookup_lt_Some in H
  | H : py_scanstring _ _ = Some _ |- _ => apply py_scanstring_lb in H
  end.

Section ParserFacts.
Variable scan : pystr → nat → outcome (json * nat).
Variable s : pystr.
Hypothesis scan_progress : ∀ idx v e, scan s idx = Ok (v, e) → idx < e.

Lemma object_loop_lb (b fuel : nat) : ∀ (end_ : nat) pairs v e,
    b < length s → b < end_ →
    object_loop scan fuel s end_ pairs = Ok (v, e) → b < e.
  Proof.
    induction fuel as [|fuel IH]; intros end_ pairs v e Hb He H; [done|].
    cbn [object_loop] in H. unfold obind, of_option in H.
    repeat (case_match; try done; simplify_eq).
    all: repeat match goal with
         | H : scan _ _ = Ok _ |- _ => apply scan_progress in H
         | H : object_loop _ _ _ _ _ = Ok _ |- _ => apply IH in H; [lia|lia|]
         end.
    all: lookup_bounds; w_bounds; try lia.
  Qed.

Lemma JSONObject_lb (b fuel end_ : nat) v e :
    b < length s → b < end_ →
    JSONObject scan fuel s end_ = Ok (v, e) → b < e.
  Proof.
    intros Hb He H. unfold JSONObject in H.
    repeat (case_match; try done; simplify_eq).
    all: try match goal with
         | H : object_loop _ _ _ _ _ = Ok _ |- _ =>
             apply (object_loop_lb b) in H; [lia|lia|]
         end.
    all: lookup_bounds; w_bounds; try lia.
  Qed.

Lemma array_loop_lb (b fuel : nat) : ∀ (end_ : nat) values v e,
    b < length s → b < end_ →
    array_loop scan fuel s end_ values = Ok (v, e) → b < e.
  Proof.
    induction fuel as [|fuel IH]; intros end_ values v e Hb He H; [done|].
    cbn [array_loop] in H. unfold obind in H.
    repeat (case_match; try done; simplify_eq).
    all: repeat match goal with
         | H : scan _ _ = Ok _ |- _ => apply scan_progress in H
         | H : array_loop _ _ _ _ _ = Ok _ |- _ => apply IH in H; [lia|lia|]
         end.
    all: lookup_bounds; w_bounds; try lia.
  Qed.

Lemma JSONArray_lb (b fuel end_ : nat) v e :
    b < length s → b < end_ →
    JSONArray scan fuel s end_ = Ok (v, e) → b < e.
  Proof.
    intros Hb He H. unfold JSONArray in H.
    repeat (case_match; try done; simplify_eq).
    all: try match goal with
         | H : array_loop _ _ _ _ _ = Ok _ |- _ =>
             apply (array_loop_lb b) in H; [lia|lia|]
         end.
    all: lookup_bounds; w_bounds; try lia.
  Qed.

  (** The loops never use up their fuel when the scanner does not. *)
Variable b : nat.
Hypothesis scan_fuel : ∀ idx, b < idx → scan s idx ≠ OutOfFuel.

Lemma object_loop_fuel (fuel : nat) : ∀ (end_ : nat) pairs,
    b < end_ → length s - end_ < fuel →
    object_loop scan fuel s end_ pairs ≠ OutOfFuel.
  Proof.
    induction fuel as [|fuel IH]; intros end_ pairs He Hf H; [lia|].
    cbn [object_loop] in H. unfold obind, of_option in H.
    repeat (case_match; try done; simplify_eq).
    all: repeat match goal with
         | H : scan _ _ = Ok _ |- _ => apply scan_progress in H
         | H : scan _ ?i = OutOfFuel |- _ => exfalso; revert H; apply scan_fuel
         | H : object_loop _ _ _ _ _ = OutOfFuel |- _ => exfalso; revert H; apply IH
         end.
    all: lookup_bounds; w_bounds; try lia.
  Qed.

Lemma JSONObject_fuel (fuel end_ : nat) :
    b < end_ → length s - end_ ≤ fuel →
    JSONObject scan fuel s end_ ≠ OutOfFuel.
  Proof.
    intros He Hf H. unfold JSONObject in H.
    repeat (case_match; try done; simplify_eq).
    all: try match goal with
         | H : object_loop _ _ _ _ _ = OutOfFuel |- _ =>
             exfalso; revert H; apply object_loop_fuel
         end.
    all: lookup_bounds; w_bounds; try lia.
  Qed.

Lemma array_loop_fuel (fuel : nat) : ∀ (end_ : nat) values,
    b < end_ → length s - end_ < fuel →
    array_loop scan fuel s end_ values ≠ OutOfFuel.
  Proof.
    induction fuel as [|fuel IH]; intros end_ values He Hf H; [lia|].
    cbn [array_loop] in H. unfold obind in H.
    repeat (case_match; try done; simplify_eq).
    all: repeat match goal with
         | H : scan _ _ = Ok _ |- _ => apply scan_progress in H
         | H : scan _ ?i = OutOfFuel |- _ => exfalso; revert H; apply scan_fuel
         | H : array_loop _ _ _ _ _ = OutOfFuel |- _ => exfalso; revert H; apply IH
         end.
    all: lookup_bounds; w_bounds; try lia.
  Qed.

Lemma JSONArray_fuel (fuel end_ : nat) :
    b < end_ → end_ ≤ length s → length s - end_ < fuel →
    JSONArray scan fuel s end_ ≠ OutOfFuel.
  Proof.
    intros He Hl Hf H. unfold JSONArray in H.
    repeat (case_match; try done; simplify_eq).
    all: try match goal with
         | H : array_loop _ _ _ _ _ = OutOfFuel |- _ =>
             exfalso; revert H; apply array_loop_fuel
         end.
    all: lookup_bounds; w_bounds; try lia.
  Qed.
End ParserFacts.

Lemma scan_once_progress (md mx fuel : nat) :
  ∀ (depth : nat) (s : pystr) (idx : nat) v e,
  scan_once md mx fuel depth s idx = Ok (v, e) → idx < e.
Proof.
  induction fuel as [|fuel IH]; intros depth s idx v e H; [done|].
  cbn [scan_once] in H. unfold obind, of_option in H.
  destruct (s !! idx) as [nextchar|] eqn:Hc; [|done].
  apply lookup_lt_Some in Hc.
  repeat (case_match; try done; simplify_eq).
  all: try lia.
  all: try match goal with
       | H : JSONObject _ _ _ _ = Ok _ |- _ =>
           apply (JSONObject_lb _ s (IH _ s) idx) in H; [done|done|lia]
       | H : JSONArray _ _ _ _ = Ok _ |- _ =>
           apply (JSONArray_lb _ s (IH _ s) idx) in H; [done|done|lia]
       | H : match_number _ = Some _ |- _ =>
           apply match_number_nonempty in H as (? & ? & _ & ? & _); lia
       end.
  all: lookup_bounds; lia.
Qed.

Lemma scan_once_fuel (md mx fuel : nat) :
  ∀ (depth : nat) (s : pystr) (idx : nat),
  length s - idx < fuel → scan_once md mx fuel depth s idx ≠ OutOfFuel.
Proof.
  induction fuel as [|fuel IH]; intros depth s idx Hf H; [lia|].
  cbn [scan_once] in H. unfold obind, of_option in H.
  destruct (s !! idx) as [nextchar|] eqn:Hc; [|done].
  apply lookup_lt_Some in Hc.
  repeat (case_match; try done; simplify_eq).
  - revert H.
    apply (JSONObject_fuel _ s (scan_once_progress md mx fuel _ s) idx);
      [|lia|lia].
    intros i Hi. apply IH. lia.
  - revert H.
    apply (JSONArray_fuel _ s (scan_once_progress md mx fuel _ s) idx);
      [|lia|lia|lia].
    intros i Hi. apply IH. lia.
Qed.

Lemma is_digit_not_space (c : N) : is_digit c = true → isspace c = false.
Proof.
  unfold is_digit, isspace. intros H.
  apply andb_true_iff in H as [H1 H2].
  apply N.leb_le in H1. apply N.leb_le in H2.
  repeat match goal with
  | |- context [(?a <=? ?b)%N] => destruct (N.leb_spec a b); try lia
  | |- context [(?a =? ?b)%N] => destruct (N.eqb_spec a b); try lia
  end; reflexivity.
Qed.

(** A value never starts with a character that [str.strip] removes. *)
Lemma scan_once_start (md mx fuel depth : nat) (s : pystr) (idx : nat) v e :
  scan_once md mx fuel depth s idx = Ok (v, e) →
  ∃ c, s !! idx = Some c ∧ isspace c = false.
Proof.
  destruct fuel as [|fuel]; intros H; [done|].
  cbn [scan_once] in H.
  destruct (s !! idx) as [nextchar|] eqn:Hc; [|done].
  exists nextchar. split; [done|].
  repeat match type of H with
  | context [(nextchar =? ?k)%N] =>
      destruct (N.eqb_spec nextchar k); [subst; reflexivity|]
  end.
  cbn [andb] in H.
  destruct (match_number (drop idx s)) as [[[integer frac] exp]|] eqn:Hn;
    [|done].
  apply match_number_nonempty in Hn as (c & t & Hd & _ & Hcd).
  rewrite (drop_S _ _ _ Hc) in Hd. simplify_eq.
  destruct Hcd as [->|Hd]; [reflexivity|]. by apply is_digit_not_space.
Qed.

End JsonFacts.

(** * Facts about raw_decode and str.strip *)

Lemma raw_decode_Return (s : pystr) (obj : json) (ind : nat) :
  raw_decode s = Return (obj, ind) →
  0 < ind ∧ ∃ c t, s = c :: t ∧ isspace c = false.
Proof.
  unfold raw_decode, raw_decode_from. intros H.
  destruct (Json.scan_once _ _ (S (length s)) 0 s 0) as [[v e]| | | |] eqn:Hs;
    simplify_eq.
  split.
  - apply JsonFacts.scan_once_progress in Hs. lia.
  - apply JsonFacts.scan_once_start in Hs as (c & Hc & Hsp).
    destruct s as [|c' t]; simplify_eq/=. eauto.
Qed.

Lemma decoder_limit_error_class (e : exn) :
  decoder_limit_error e → exn_class e ≠ "JSONDecodeError".
Proof. by intros [-> | ->]. Qed.

(** The decoder returns or raises: the fuel given to the scanner is never
    used up. *)
Lemma raw_decode_from_outcome (s : pystr) (idx : nat) :
  (∃ r, raw_decode_from s idx = Return r)
  ∨ raw_decode_from s idx = Raise JSONDecodeError
  ∨ ∃ e, decoder_limit_error e ∧ raw_decode_from s idx = Raise e.
Proof.
  unfold raw_decode_from.
  pose proof (JsonFacts.scan_once_fuel RECURSION_DEPTH INT_MAX_STR_DIGITS
                (S (length s)) 0 s idx) as Hf.
  destruct (Json.scan_once _ _ (S (length s)) 0 s idx) as [r| | | |].
  - left. by exists r.
  - by right; left.
  - right; right. eexists. split; [by left|done].
  - right; right. eexists. split; [by right|done].
  - exfalso. apply Hf; [lia|done].
Qed.

Lemma truthy_lstrip (l : pystr) : truthy (lstrip l) = existsb nonspace l.
Proof.
  induction l as [|c t IH]; [done|]. simpl. unfold nonspace at 1.
  destruct (isspace c); simpl; [done|reflexivity].
Qed.

Lemma existsb_lstrip (l : pystr) :
  existsb nonspace (lstrip l) = existsb nonspace l.
Proof.
  induction l as [|c t IH]; [done|]. simpl. unfold nonspace at 2.
  destruct (isspace c) eqn:Hc; simpl; [done|].
  unfold nonspace at 1. by rewrite Hc.
Qed.

Lemma truthy_rev (l : pystr) : truthy (rev l) = truthy l.
Proof.
  destruct l as [|c t]; [done|]. simpl. by destruct (rev t).
Qed.

Lemma existsb_nonspace_rev (l : pystr) :
  existsb nonspace (rev l) = existsb nonspace l.
Proof.
  induction l as [|c t IH]; [done|]. simpl.
  rewrite existsb_app, IH. simpl. rewrite orb_false_r. apply orb_comm.
Qed.

(** [s.strip()] is non-empty exactly when [s] has a character that is not
    white space. *)
Lemma truthy_strip (l : pystr) : truthy (strip l) = existsb nonspace l.
Proof.
  unfold strip, rstrip.
  rewrite truthy_rev, truthy_lstrip, existsb_nonspace_rev. apply existsb_lstrip.
Qed.

Lemma slice_cons (s : pystr) (i ind : nat) (c : N) (t : pystr) :
  drop i s = c :: t → 0 < ind →
  slice s i (i + ind) = c :: take (ind - 1) t.
Proof.
  intros Hd Hind. unfold slice. rewrite Hd.
  replace (i + ind - i) with (S (ind - 1)) by lia. done.
Qed.

(** * Facts about loads_partial_json *)

(** The loop ends: decoding consumes at least one character, and the index
    read in the handler is inside the string.  It ends by returning unless
    the decoder ran into a limit of the interpreter, whose exception is
    not caught. *)
Lemma loads_loop_outcome (fuel : nat) : ∀ (s : pystr) et (i : nat) results m,
  length s - i < fuel →
  (∃ r m', loads_loop fuel s et i results m = Some (Return (r, m')))
  ∨ ∃ e, decoder_limit_error e
         ∧ loads_loop fuel s et i results m = Some (Raise e).
Proof.
  induction fuel as [|fuel IH]; intros s et i results m Hf; [lia|].
  cbn [loads_loop]. case_bool_decide as Hi; [|left; eauto].
  unfold raw_decode.
  destruct (raw_decode_from_outcome (drop i s) 0)
    as [[[obj ind] Hd] | [Hd | (e & He & Hd)]]; rewrite Hd.
  - apply raw_decode_Return in Hd as [Hind _]. apply IH. lia.
  - rewrite bool_decide_eq_true_2 by done.
    destruct (lookup_lt_is_Some_2 s i Hi) as [c ->]. apply IH. lia.
  - rewrite bool_decide_eq_false_2 by by apply decoder_limit_error_class.
    right. by exists e.
Qed.

(** The flag is raised exactly when some character from [i] on is not
    white space. *)
Lemma loads_loop_malformed (fuel : nat) : ∀ (s : pystr) et (i : nat) results m r m',
  loads_loop fuel s et i results m = Some (Return (r, m')) →
  m' = m || existsb nonspace (drop i s).
Proof.
  induction fuel as [|fuel IH]; intros s et i results m r m' H; [done|].
  cbn [loads_loop] in H. case_bool_decide as Hi.
  - destruct (raw_decode (drop i s)) as [[obj ind]|e|] eqn:Hd; [| |done].
    + apply raw_decode_Return in Hd as (Hind & c & t & Hc & Hsp).
      rewrite (slice_cons _ _ _ _ _ Hc Hind), truthy_strip in H.
      cbn [existsb] in H. unfold nonspace at 1 in H. rewrite Hsp in H.
      cbn in H. apply IH in H. rewrite Hc. cbn [existsb].
      unfold nonspace at 1. rewrite Hsp. cbn.
      rewrite H. by rewrite orb_true_r.
    + case_bool_decide; [|done].
      destruct (s !! i) as [c|] eqn:Hc; [|done].
      apply IH in H. rewrite (drop_S _ _ _ Hc). cbn [existsb].
      rewrite truthy_strip in H. cbn [existsb] in H.
      rewrite orb_false_r in H. rewrite H, Nat.add_1_r.
      destruct (nonspace c), m; reflexivity.
  - simplify_eq. rewrite drop_ge by lia. cbn. by rewrite orb_false_r.
Qed.

(** With an expected type the loop keeps, in order, the values of that
    type among all those it decodes, and raises the same flag. *)
Lemma loads_loop_filter (t : pytype) (fuel : nat) : ∀ (s : pystr) (i : nat) results m r m',
  loads_loop fuel s None i results m = Some (Return (r, m')) →
  loads_loop fuel s (Some t) i
    (List.filter (fun obj => isinstance obj t) results) m
  = Some (Return (List.filter (fun obj => isinstance obj t) r, m')).
Proof.
  induction fuel as [|fuel IH]; intros s i results m r m' H; [done|].
  cbn [loads_loop] in *. case_bool_decide as Hi; [|by simplify_eq].
  destruct (raw_decode (drop i s)) as [[obj ind]|e|] eqn:Hd; [| |done].
  - apply IH in H. cbn [type_ok] in *.
    rewrite List.filter_app in H. cbn [List.filter] in H.
    destruct (isinstance obj t); [done|]. by rewrite app_nil_r in H.
  - case_bool_decide; [|done].
    destruct (s !! i) as [c|]; [|done]. by apply IH.
Qed.

(** An exception leaves the loop whatever the expected type and whatever
    was collected. *)
Lemma loads_loop_raises (fuel : nat) : ∀ (s : pystr) et et' (i : nat)
    results results' m e,
  loads_loop fuel s et i results m = Some (Raise e) →
  loads_loop fuel s et' i results' m = Some (Raise e).
Proof.
  induction fuel as [|fuel IH]; intros s et et' i results results' m e H;
    [done|].
  cbn [loads_loop] in *. case_bool_decide as Hi; [|done].
  destruct (raw_decode (drop i s)) as [[obj ind]|e'|] eqn:Hd; [| |done].
  - eapply IH, H.
  - case_bool_decide; [|done].
    destruct (s !! i) as [c|]; [|done]. eapply IH, H.
Qed.

(** * loads_partial_json *)

(** X23.  For every string on which the function returns, [malformed]
    says whether the string has a character that is not white space:
    decoding a value raises the flag just as a stray character does. *)
Lemma loads_partial_json_malformed (s : pystr) et r m :
  loads_partial_json s et = Some (Return (r, m)) → m = existsb nonspace s.
Proof. intros H. by apply loads_loop_malformed in H. Qed.

Lemma loads_partial_json_malformed_witness :
  loads_partial_json (pyq "[1, 2]") None
    = Some (Return ([JList [JInt 1; JInt 2]], true))
  ∧ true = existsb nonspace (pyq "[1, 2]").
Proof.
  assert (loads_partial_json (pyq "[1, 2]") None
          = Some (Return ([JList [JInt 1; JInt 2]], true))) as H
    by (vm_compute; reflexivity).
  split; [exact H|]. exact (loads_partial_json_malformed _ _ _ _ H).
Defined.

(** C2.  The string that consists of the one JSON object [{}] is decoded to
    that object and flagged as malformed; so is the output
    [{"status": "pass"}] of a passing test script. *)
Theorem loads_partial_json_flags_valid_objects :
  loads_partial_json (pyq "{}") (Some TDict)
    = Some (Return ([JDict []], true))
  ∧ loads_partial_json (pyq "{'status': 'pass'}") (Some TDict)
    = Some (Return ([JDict [(py "status", JStr (py "pass"))]], true)).
Proof. split; vm_compute; reflexivity. Qed.

(** Opening brackets one after the other are arrays inside arrays: the
    scanner gives up at the bracket that would open one array more than
    [md], whatever [md] is. *)
Lemma scan_once_brackets (md mx n : nat) : ∀ (k fuel depth idx : nat),
  depth + k = md → idx + k < n → k < fuel →
  Json.scan_once md mx fuel depth (replicate n (ord "[")) idx = Json.RecursionErr.
Proof.
  induction k as [|k IH]; intros fuel depth idx Hd Hi Hf.
  - destruct fuel as [|fuel]; [lia|]. cbn [Json.scan_once].
    rewrite (lookup_replicate_2 n (ord "[") idx) by lia.
    change (ord "[" =? QUOTE)%N with false.
    change (ord "[" =? ord "{")%N with false.
    change (ord "[" =? ord "[")%N with true. cbn match.
    by rewrite bool_decide_eq_true_2 by lia.
  - destruct fuel as [|fuel]; [lia|]. cbn [Json.scan_once].
    rewrite (lookup_replicate_2 n (ord "[") idx) by lia.
    change (ord "[" =? QUOTE)%N with false.
    change (ord "[" =? ord "{")%N with false.
    change (ord "[" =? ord "[")%N with true. cbn match.
    rewrite bool_decide_eq_false_2 by lia.
    unfold Json.JSONArray.
    rewrite (lookup_replicate_2 n (ord "[") (idx + 1)) by lia.
    change (Json.in_ws (Some (ord "["))) with false. cbn match.
    rewrite bool_decide_eq_false_2 by discriminate.
    destruct fuel as [|fuel]; [lia|]. cbn [Json.array_loop].
    rewrite IH by lia. reflexivity.
Qed.

(** More opening brackets than the interpreter lets the decoder nest:
    [RecursionError], which the handler of [loads_partial_json] does not
    catch. *)
Lemma loads_partial_json_brackets (n : nat) (et : option pytype) :
  RECURSION_DEPTH < n →
  loads_partial_json (replicate n (ord "[")) et = Some (Raise RecursionError).
Proof.
  intros Hn. unfold loads_partial_json. rewrite length_replicate.
  cbn [loads_loop]. rewrite length_replicate.
  rewrite bool_decide_eq_true_2 by lia.
  unfold raw_decode, raw_decode_from. rewrite drop_0, length_replicate.
  rewrite (scan_once_brackets _ _ n RECURSION_DEPTH) by lia.
  reflexivity.
Qed.

(** An integer of more digits than the interpreter converts:
    [ValueError], which is not caught either. *)
Lemma loads_partial_json_long_integer :
  loads_partial_json (replicate 4301 (ord "1")) None = Some (Raise IntDigitsError)
  ∧ exn_class IntDigitsError ≠ "JSONDecodeError".
Proof. split; [vm_compute; reflexivity|discriminate]. Qed.

(** X22.  Apart from these two limits the function is total: on every
    string it returns a list of results and a flag, or it raises one of
    the two exceptions of the limits; the loop always ends, and the
    handler never reads past the end of the string. *)
Lemma loads_partial_json_outcome (json_string : pystr)
    (expected_type : option pytype) :
  (∃ results malformed,
     loads_partial_json json_string expected_type
     = Some (Return (results, malformed)))
  ∨ ∃ e, decoder_limit_error e
         ∧ loads_partial_json json_string expected_type = Some (Raise e).
Proof. apply loads_loop_outcome. lia. Qed.

(** C9.  A string of a hundred thousand opening brackets is a string like
    any other, and [loads_partial_json] does not return on it: the decoder
    raises [RecursionError], which is not a [JSONDecodeError] and so leaves
    the function. *)
Theorem loads_partial_json_raises_on_deep_nesting :
  loads_partial_json (replicate (N.to_nat 100000) (ord "[")) None
    = Some (Raise RecursionError)
  ∧ loads_partial_json (replicate (N.to_nat 100000) (ord "[")) (Some TDict)
    = Some (Raise RecursionError)
  ∧ exn_class RecursionError ≠ "JSONDecodeError".
Proof.
  assert (RECURSION_DEPTH < N.to_nat 100000) as Hn
    by (apply Nat.ltb_lt; vm_compute; reflexivity).
  split; [by apply loads_partial_json_brackets|].
  split; [by apply loads_partial_json_brackets|]. discriminate.
Qed.

(** C10.  [create_test_script_result] on a [str]: its [tests] field holds,
    in order, every dictionary among the values decoded from [stdout]; its
    [malformed] field is the whole of [stdout] when the decoding flagged
    it, and [None] otherwise.  No result is built when the decoder runs
    into a limit of the interpreter: the exception is passed on. *)
Theorem create_test_script_result_fields (file_name : string)
    (stdout stderr : pystr) (run_time : Z) (timeout : option Qc) :
  (∃ decoded flagged r,
    loads_partial_json stdout None = Some (Return (decoded, flagged))
    ∧ loads_partial_json stdout (Some TDict)
      = Some (Return (List.filter (fun obj => isinstance obj TDict) decoded,
                      flagged))
    ∧ create_test_script_result file_name (Text stdout) (Text stderr)
        run_time timeout
      = Some (Return r)
    ∧ Result.tests r = List.filter (fun obj => isinstance obj TDict) decoded
    ∧ Result.malformed r = (if flagged then Some (Text stdout) else None))
  ∨ (∃ e, decoder_limit_error e
          ∧ loads_partial_json stdout None = Some (Raise e)
          ∧ create_test_script_result file_name (Text stdout) (Text stderr)
              run_time timeout
            = Some (Raise e)).
Proof.
  destruct (loads_loop_outcome (S (length stdout)) stdout None 0 [] false)
    as [(decoded & flagged & Hn) | (e & He & Hn)]; [lia| |].
  - left.
    change (loads_partial_json stdout None
            = Some (Return (decoded, flagged))) in Hn.
    pose proof (loads_loop_filter TDict _ _ _ _ _ _ _ Hn) as Hd.
    change (loads_partial_json stdout (Some TDict) = Some
      (Return (List.filter (fun obj => isinstance obj TDict) decoded,
               flagged))) in Hd.
    exists decoded, flagged. eexists.
    split; [exact Hn|]. split; [exact Hd|].
    unfold create_test_script_result, loads_dicts. rewrite Hd. repeat split.
  - right. exists e. split; [done|]. split; [exact Hn|].
    pose proof (loads_loop_raises _ _ _ (Some TDict) _ _ [] _ _ Hn) as Hd.
    unfold create_test_script_result, loads_dicts, loads_partial_json.
    by rewrite Hd.
Qed.

(** Handed [bytes], as it is by [run_test_scripts], the function builds a
    result for empty output only. *)
Lemma create_test_script_result_bytes (file_name : string)
    (stdout : pybytes) (stderr : pydata) (run_time : Z)
    (timeout : option Qc) :
  create_test_script_result file_name (Bytes stdout) stderr run_time timeout
  = match stdout with
    | [] =>
        Some (Return
          {| Result.file_name := file_name; Result.time := run_time;
             Result.timeout := timeout; Result.tests := [];
             Result.stderr := if data_truthy stderr then Some stderr else None;
             Result.malformed := None |})
    | _ :: _ =>
        Some (Raise (TypeError "first argument must be a string, not bytes"))
    end.
Proof. by destruct stdout. Qed.

(** * Queue statistics *)

Lemma get_pop_interval_stat_eq (queue_name : string) (w : world) :
  get_pop_interval_stat queue_name w
  = (w, Return (POP_HASH w !! (queue_name +:+ "_start"),
                POP_HASH w !! (queue_name +:+ "_count"),
                POP_HASH w !! (queue_name +:+ "_count"))).
Proof. reflexivity. Qed.

(** What [get_avg_pop_interval] computes from a recorded burst, in float
    arithmetic: the time of the last pop does not enter the result, the
    count stands in for it. *)
Lemma get_avg_pop_interval_burst (queue_name : string) (w : world)
    (start : Qc) (count : Z) :
  POP_HASH w !! (queue_name +:+ "_start") = Some (RFloat start) →
  POP_HASH w !! (queue_name +:+ "_count") = Some (RInt count) →
  get_avg_pop_interval queue_name w
  = (w, Return (Some (if bool_decide ((count - 1)%Z ≠ 0%Z)
                      then fdiv (fsub (b64 (Qc_of_Z count)) start)
                             (b64 (Qc_of_Z (count - 1)))
                      else 0%Qc))).
Proof.
  intros Hs Hc. unfold get_avg_pop_interval, bind.
  rewrite get_pop_interval_stat_eq, Hs, Hc. reflexivity.
Qed.

(** A single pop gives 0. *)
Lemma get_avg_pop_interval_single (queue_name : string) (w : world)
    (start : Qc) :
  POP_HASH w !! (queue_name +:+ "_start") = Some (RFloat start) →
  POP_HASH w !! (queue_name +:+ "_count") = Some (RInt 1) →
  get_avg_pop_interval queue_name w = (w, Return (Some 0%Qc)).
Proof.
  intros Hs Hc. by rewrite (get_avg_pop_interval_burst _ _ _ _ Hs Hc).
Qed.

(** No burst recorded gives [None]. *)
Lemma get_avg_pop_interval_absent (queue_name : string) (w : world) :
  POP_HASH w !! (queue_name +:+ "_start") = None →
  get_avg_pop_interval queue_name w = (w, Return None).
Proof.
  intros Hs. unfold get_avg_pop_interval, bind.
  rewrite get_pop_interval_stat_eq, Hs. reflexivity.
Qed.

(** After [clear_pop_interval_stat] no burst is recorded. *)
Lemma get_avg_pop_interval_cleared (queue_name : string) (w : world) :
  get_avg_pop_interval queue_name (clear_pop_interval_stat queue_name w).1
  = ((clear_pop_interval_stat queue_name w).1, Return None).
Proof.
  apply get_avg_pop_interval_absent. cbn.
  rewrite !lookup_insert_ne, lookup_delete_eq; [done| |].
  all: intros H; apply (inj (String.app queue_name)) in H; discriminate.
Qed.

(** C4.  After pops at times 0, 2 and 5 the hash holds start 0, last 5 and
    count 3, and [get_avg_pop_interval] returns 3/2 where
    (5 - 0) / (3 - 1) is 5/2. *)
Theorem get_avg_pop_interval_three_pops :
  let r := three_pops "q" empty_world in
  POP_HASH r.1 !! "q_start" = Some (RFloat (Qc_of_Z 0))
  ∧ POP_HASH r.1 !! "q_last" = Some (RFloat (Qc_of_Z 5))
  ∧ POP_HASH r.1 !! "q_count" = Some (RInt 3)
  ∧ r.2 = Return (Some (Q2Qc (3 # 2)))
  ∧ Q2Qc (3 # 2) ≠ ((Qc_of_Z 5 - Qc_of_Z 0) / Qc_of_Z (3 - 1))%Qc.
Proof.
  cbv zeta. repeat split; try (vm_compute; reflexivity).
  intros H. apply (f_equal this) in H. vm_compute in H. discriminate.
Qed.

(** * The pool of tester users *)

(** One acquisition: whatever way the body ends, the user data taken from
    the list is pushed back. *)
Lemma with_tester_user_pool (body : json → M unit) (w : world) :
  keeps_pool body →
  (with_ tester_user body w).2 ≠ Blocked →
  USER_LIST (with_ tester_user body w).1 ≡ₚ USER_LIST w.
Proof.
  intros Hbody. unfold with_, tester_user, bind, blpop_user.
  destruct (USER_LIST w) as [|user_data rest] eqn:Hl; [done|].
  destruct (json_loads user_data) as [user|e|]; cbn.
  - pose proof (Hbody user (set_user_list rest w)) as Hperm.
    destruct (body user (set_user_list rest w)) as [w' [[]|e|]];
      cbn in *; intros Hnb; try done;
      by rewrite Hperm, Permutation_app_comm.
  - intros _. by rewrite Permutation_app_comm.
  - done.
Qed.

(** An exception of the body is passed on after the push. *)
Lemma with_tester_user_raises (body : json → M unit) (w w' : world)
    (user_data : pystr) (rest : list pystr) (user : json) (e : exn) :
  USER_LIST w = user_data :: rest →
  json_loads user_data = Return user →
  body user (set_user_list rest w) = (w', Raise e) →
  with_ tester_user body w
  = (set_user_list (USER_LIST w' ++ [user_data]) w', Raise e).
Proof.
  intros Hl Hj Hb. unfold with_, tester_user, bind, blpop_user.
  rewrite Hl, Hj. cbn. rewrite Hb. reflexivity.
Qed.

(** C5.  After any sequence of acquire/release pairs that comes to an end,
    whether the bodies return or raise, the tester users available are
    those available at the start, and so as many. *)
Theorem tester_user_pool_conserved (bodies : list (json → M unit))
    (w : world) :
  Forall keeps_pool bodies →
  (acquire_release_pairs bodies w).2 ≠ Blocked →
  USER_LIST (acquire_release_pairs bodies w).1 ≡ₚ USER_LIST w
  ∧ length (USER_LIST (acquire_release_pairs bodies w).1)
    = length (USER_LIST w).
Proof.
  intros Hall Hnb.
  assert (USER_LIST (acquire_release_pairs bodies w).1 ≡ₚ USER_LIST w) as H.
  { revert w Hall Hnb.
    induction bodies as [|body rest IH]; intros w Hall; [done|].
    apply Forall_cons in Hall as [Hbody Hrest].
    cbn [acquire_release_pairs]. unfold bind, try_except.
    pose proof (with_tester_user_pool body w Hbody) as Hone.
    destruct (with_ tester_user body w) as [w1 [[]|e|]]; cbn in *.
    - intros Hnb. rewrite (IH w1 Hrest Hnb). by apply Hone.
    - intros Hnb. rewrite (IH w1 Hrest Hnb). by apply Hone.
    - done. }
  split; [exact H|]. by rewrite H.
Qed.

Lemma tester_user_pool_conserved_witness :
  Forall keeps_pool sample_bodies
  ∧ (acquire_release_pairs sample_bodies sample_world).2 ≠ Blocked
  ∧ length (USER_LIST (acquire_release_pairs sample_bodies sample_world).1)
    = length (USER_LIST sample_world).
Proof.
  assert (Forall keeps_pool sample_bodies) as Hall
    by (repeat constructor; intros ? ?; reflexivity).
  assert ((acquire_release_pairs sample_bodies sample_world).2 ≠ Blocked)
    as Hnb by (vm_compute; discriminate).
  split; [exact Hall|]. split; [exact Hnb|].
  exact (proj2 (tester_user_pool_conserved sample_bodies sample_world
                  Hall Hnb)).
Defined.

(** * Descriptors and locks *)

Lemma with_fd_open_returns (p : path) (n : node) (w w2 : world)
    (body : nat → M unit) :
  lookup_node p (fs w) = Some n →
  let fd := fresh (dom (fds w)) in
  body fd (log (EvOpen fd p) (set_fds (<[fd := p]> (fds w)) w))
    = (w2, Return tt) →
  with_ (fd_open (Some p)) body w = os_close fd w2.
Proof.
  intros Hn fd Hb. unfold with_, fd_open, bind, os_open. rewrite Hn.
  cbn. fold fd. rewrite Hb. reflexivity.
Qed.

(** When the body raises, the world is left as the body left it: the
    descriptor is not closed. *)
Lemma with_fd_open_raises (p : path) (n : node) (w w2 : world)
    (body : nat → M unit) (e : exn) :
  lookup_node p (fs w) = Some n →
  let fd := fresh (dom (fds w)) in
  body fd (log (EvOpen fd p) (set_fds (<[fd := p]> (fds w)) w))
    = (w2, Raise e) →
  with_ (fd_open (Some p)) body w = (w2, Raise e).
Proof.
  intros Hn fd Hb. unfold with_, fd_open, bind, os_open. rewrite Hn.
  cbn. fold fd. rewrite Hb. reflexivity.
Qed.

Lemma with_fd_lock_returns (fd : nat) (exclusive : bool) (p : path)
    (w w2 : world) (body : unit → M unit) :
  let k := if exclusive then LOCK_EX else LOCK_SH in
  fds w !! fd = Some p →
  lock_conflict w fd p k = false →
  body tt (log (EvFlock fd (Some k)) (set_locks (<[fd := k]> (locks w)) w))
    = (w2, Return tt) →
  with_ (fd_lock fd exclusive) body w = flock fd None w2.
Proof.
  intros k Hfd Hc Hb. unfold with_, fd_lock, bind, flock. rewrite Hfd.
  fold k. rewrite Hc. cbn. rewrite Hb. reflexivity.
Qed.

(** When the body raises, the lock is not released. *)
Lemma with_fd_lock_raises (fd : nat) (exclusive : bool) (p : path)
    (w w2 : world) (body : unit → M unit) (e : exn) :
  let k := if exclusive then LOCK_EX else LOCK_SH in
  fds w !! fd = Some p →
  lock_conflict w fd p k = false →
  body tt (log (EvFlock fd (Some k)) (set_locks (<[fd := k]> (locks w)) w))
    = (w2, Raise e) →
  with_ (fd_lock fd exclusive) body w = (w2, Raise e).
Proof.
  intros k Hfd Hc Hb. unfold with_, fd_lock, bind, flock. rewrite Hfd.
  fold k. rewrite Hc. cbn. rewrite Hb. reflexivity.
Qed.

(** C6.  [copy_test_script_files] into a directory that does not exist:
    copying the first file raises [FileNotFoundError] while the directory
    of the test scripts is open and locked, and both the descriptor and
    the shared lock are still held when the exception leaves the
    function. *)
Theorem copy_test_script_files_keeps_descriptor_and_lock :
  let r := copy_test_script_files "host" "1" ["srv"; "missing"] sample_world in
  fds sample_world = ∅
  ∧ r.2 = Raise FileNotFoundError
  ∧ fds r.1 !! 0 = Some scripts_100
  ∧ locks r.1 !! 0 = Some LOCK_SH
  ∧ trace r.1 = [EvOpen 0 scripts_100; EvFlock 0 (Some LOCK_SH)].
Proof. cbv zeta. repeat split; vm_compute; reflexivity. Qed.

(** On the way out without an exception both are given back. *)
Lemma copy_test_script_files_releases_on_return :
  let r := copy_test_script_files "host" "1" ["srv"; "sandbox"] sample_world in
  r.2 = Return tt ∧ fds r.1 = ∅ ∧ locks r.1 = ∅.
Proof. cbv zeta. repeat split; vm_compute; reflexivity. Qed.

(** * Deleting the old version *)

(** Errors other than a missing directory are raised again. *)
Lemma _ignore_missing_dir_error_other (e : exn) (w : world) :
  exn_class e ≠ "FileNotFoundError" →
  _ignore_missing_dir_error e w = (w, Raise e).
Proof.
  intros H. unfold _ignore_missing_dir_error. by rewrite bool_decide_eq_false_2.
Qed.



(** * Updating the test scripts *)

Lemma for_each_registry {A} (body : A → M unit) (xs : list A) :
  (∀ x w, registry (body x w).1 = registry w) →
  ∀ w, registry (for_each xs body w).1 = registry w.
Proof.
  intros Hbody. induction xs as [|x rest IH]; intros w; [done|].
  cbn [for_each]. unfold bind. specialize (Hbody x w).
  destruct (body x w) as [w1 [[]|e|]]; cbn in *; [|done|done].
  by rewrite IH.
Qed.

Lemma _copy_tree_registry (src dst : path) (w : world) :
  registry (_copy_tree src dst w).1 = registry w.
Proof.
  unfold _copy_tree, bind, _recursive_iglob, gets.
  apply for_each_registry. intros [fd file_or_dir] w0.
  destruct fd.
  - unfold os_makedirs. by destruct (makedirs_node _ _).
  - unfold shutil_copy2. repeat case_match; done.
Qed.

Lemma clean_up_registry (w : world) : registry (clean_up w).1 = registry w.
Proof.
  unfold clean_up, bind, gets.
  apply for_each_registry. intros [name count] w0.
  repeat case_bool_decide; done.
Qed.

(** In every run of [update_test_scripts] that returns, the pointer is set
    to the new directory first, then the old directory is opened and
    locked exclusively, and only then removed; the pointer is left on the
    new directory. *)
Lemma update_test_scripts_order (config : Config) (files_path : path)
    (assignment_id markus_address : string) (w w' : world) :
  update_test_scripts config files_path assignment_id markus_address w
    = (w', Return tt) →
  let key := _get_test_script_key markus_address assignment_id in
  let new_dir :=
    new_test_script_dir config markus_address assignment_id (b64 (clock w)) in
  ∃ old fd rest,
    CURRENT_TEST_SCRIPT_HASH w !! key = Some old
    ∧ trace w' = trace w ++ EvPointer key new_dir :: EvOpen fd old
                   :: EvFlock fd (Some LOCK_EX) :: rest
    ∧ (rest = [EvRmtree old; EvFlock fd None; EvClose fd]
       ∨ rest = [EvFlock fd None; EvClose fd])
    ∧ CURRENT_TEST_SCRIPT_HASH w' !! key = Some new_dir.
Proof.
  intros H key new_dir.
  unfold update_test_scripts, clean_after, try_finally in H.
  destruct (bind _ _ w) as [wb rb] eqn:Hb in H.
  pose proof (clean_up_registry wb) as Hclean.
  destruct rb as [[]|e|]; [|by destruct (clean_up wb) as [? [[]|?|]]|done].
  destruct (clean_up wb) as [wc [[]|?|]]; simplify_eq. cbn in Hclean.
  unfold update_test_scripts_body, bind, time_time, gets in Hb.
  fold new_dir in Hb.
  pose proof (_copy_tree_registry files_path new_dir w) as Hcopy.
  destruct (_copy_tree files_path new_dir w) as [w1 [[]|?|]]; [|done|done].
  cbn in Hcopy.
  unfold _test_script_directory, bind, ret, gets, modify in Hb. fold key in Hb.
  unfold registry in *. simplify_eq.
  rewrite H0 in Hb.
  destruct (CURRENT_TEST_SCRIPT_HASH w !! key) as [old|] eqn:Hold; [|done].
  set (w2 := log (EvPointer key new_dir) _) in Hb.
  unfold with_ at 1 in Hb. unfold fd_open, bind, os_open in Hb.
  destruct (lookup_node old (fs w2)) as [n|]; [|done].
  cbn [ret yielded yield_then resume throw] in Hb.
  set (fd := fresh (dom (fds w2))) in Hb.
  set (w3 := log (EvOpen fd old) _) in Hb.
  unfold with_, fd_lock, bind, flock in Hb.
  assert (fds w3 !! fd = Some old) as Hfd by apply lookup_insert_eq.
  rewrite Hfd in Hb.
  destruct (lock_conflict w3 fd old LOCK_EX); [done|].
  cbn [ret yielded yield_then resume throw] in Hb.
  set (w4 := log (EvFlock fd (Some LOCK_EX)) _) in Hb.
  exists old, fd.
  assert (trace w4 = trace w ++ [EvPointer key new_dir; EvOpen fd old;
                                 EvFlock fd (Some LOCK_EX)]) as Ht4.
  { cbn. rewrite H3, <- !app_assoc. reflexivity. }
  assert (CURRENT_TEST_SCRIPT_HASH w4 !! key = Some new_dir) as Hp4
    by apply lookup_insert_eq.
  assert (fds w4 !! fd = Some old) as Hfd4 by exact Hfd.
  clearbody w4. clear w3 Hfd. clearbody fd. clear w2.
  assert (∃ w5 rest, rmtree (Some old) _ignore_missing_dir_error w4
                     = (w5, Return tt)
            ∧ trace w5 = trace w4 ++ rest
            ∧ (rest = [EvRmtree old] ∨ rest = [])
            ∧ CURRENT_TEST_SCRIPT_HASH w5 = CURRENT_TEST_SCRIPT_HASH w4
            ∧ fds w5 = fds w4) as (w5 & rest & Hrm & Ht5 & Hrest & Hp5 & Hfd5).
  { unfold rmtree in *. unfold _ignore_missing_dir_error in *.
    destruct (lookup_node old (fs w4)) as [[|entries]|]; cbn in *.
    - done.
    - destruct (set_node old None (fs w4)).
      + eexists _, [EvRmtree old]. repeat split; eauto.
      + eexists _, []. rewrite app_nil_r. repeat split; eauto.
    - eexists _, []. rewrite app_nil_r. repeat split; eauto. }
  rewrite Hrm in Hb. rewrite <- Hfd5 in Hfd4. rewrite Hfd4 in Hb.
  cbn in Hb. unfold os_close in Hb. cbn in Hb. rewrite Hfd4 in Hb.
  simplify_eq. cbn in *.
  exists (rest ++ [EvFlock fd None; EvClose fd]).
  split; [done|]. split; [|split].
  - rewrite H2, Ht5, Ht4, <- !app_assoc. reflexivity.
  - destruct Hrest as [-> | ->]; [by left|by right].
  - by rewrite Hclean, Hp5.
Qed.

(** When the new directory is not the old one, the path [get] returns
    after the update is not the path that was removed. *)
Lemma update_test_scripts_get_after (config : Config) (files_path : path)
    (assignment_id markus_address : string) (w w' : world) (old : path) :
  update_test_scripts config files_path assignment_id markus_address w
    = (w', Return tt) →
  CURRENT_TEST_SCRIPT_HASH w
    !! _get_test_script_key markus_address assignment_id = Some old →
  new_test_script_dir config markus_address assignment_id (b64 (clock w)) ≠ old →
  ∃ d, _test_script_directory markus_address assignment_id None w'
       = (w', Return (Some d)) ∧ d ≠ old.
Proof.
  intros H Hold Hne.
  apply update_test_scripts_order in H as (? & ? & ? & _ & _ & _ & Hp).
  eexists. split; [|exact Hne].
  unfold _test_script_directory, bind, ret, gets. by rewrite Hp.
Qed.

(** C7.  A second update of the scripts of an assignment within the same
    second: the new directory is the old one, the update returns, and the
    path that [_test_script_directory] returns afterwards is the directory
    the update has just removed. *)
Theorem update_test_scripts_same_second :
  let r := update_test_scripts sample_config ["srv"; "upload"] "1" "host"
             sample_world in
  CURRENT_TEST_SCRIPT_HASH sample_world !! "host_1" = Some scripts_100
  ∧ new_test_script_dir sample_config "host" "1" (clock sample_world)
    = scripts_100
  ∧ r.2 = Return tt
  ∧ trace r.1 = [EvPointer "host_1" scripts_100; EvOpen 0 scripts_100;
                 EvFlock 0 (Some LOCK_EX); EvRmtree scripts_100;
                 EvFlock 0 None; EvClose 0]
  ∧ lookup_node scripts_100 (fs r.1) = None
  ∧ (_test_script_directory "host" "1" None r.1).2
    = Return (Some scripts_100).
Proof. cbv zeta. repeat split; vm_compute; reflexivity. Qed.

(** * Deleting a version that is already gone *)

Lemma for_each_returns {A} (body : A → M unit) (xs : list A) :
  (∀ x w, (body x w).2 = Return tt) →
  ∀ w, (for_each xs body w).2 = Return tt.
Proof.
  intros Hbody. induction xs as [|x rest IH]; intros w; [done|].
  cbn [for_each]. unfold bind. specialize (Hbody x w).
  destruct (body x w) as [w1 r]. cbn in Hbody. subst r. apply IH.
Qed.

Lemma clean_up_returns (w : world) : (clean_up w).2 = Return tt.
Proof.
  unfold clean_up, bind, gets.
  apply for_each_returns. intros [name count] w0.
  repeat case_bool_decide; done.
Qed.

(** What [clean_after] makes of each way the function can end. *)
Lemma clean_after_eq {A} (func : M A) (w : world) :
  clean_after func w
  = match func w with
    | (w', Return _) => ((clean_up w').1, Return tt)
    | (w', Raise e) => ((clean_up w').1, Raise e)
    | (w', Blocked) => (w', Blocked)
    end.
Proof.
  unfold clean_after, try_finally, bind, ret.
  destruct (func w) as [w' [a|e|]]; [| |done].
  - pose proof (clean_up_returns w') as Hr.
    destruct (clean_up w') as [w'' r]. cbn in *. by subst r.
  - pose proof (clean_up_returns w') as Hr.
    destruct (clean_up w') as [w'' r]. cbn in *. by subst r.
Qed.



(** C8.  The pointer of assignment 1 names a directory that is no longer on
    the disk.  [update_test_scripts] copies the upload and moves the
    pointer, and then the deletion of the old version raises
    [FileNotFoundError]: the directory is opened before it is removed, and
    the handler that ignores a missing directory is never reached. *)
Theorem update_test_scripts_old_dir_absent :
  let r := update_test_scripts sample_config ["srv"; "upload"] "1" "host"
             orphaned_world in
  CURRENT_TEST_SCRIPT_HASH orphaned_world !! "host_1" = Some scripts_100
  ∧ lookup_node scripts_100 (fs orphaned_world) = None
  ∧ r.2 = Raise FileNotFoundError
  ∧ trace r.1 = [EvPointer "host_1"
                   ["srv"; "scripts"; "host"; "1"; "test_scripts_200"]]
  ∧ (_test_script_directory "host" "1" None r.1).2
    = Return (Some ["srv"; "scripts"; "host"; "1"; "test_scripts_200"]).
Proof. cbv zeta. repeat split; vm_compute; reflexivity. Qed.

(** The code gets there by itself: a second update within one second
    removes the directory it has just installed and leaves the pointer
    on it, and the update after that fails on the missing directory. *)
Lemma three_updates_fail :
  (update_test_scripts sample_config ["srv"; "upload"] "1" "host"
     upload_world).2 = Return tt
  ∧ (three_updates upload_world).2 = Raise FileNotFoundError
  ∧ trace (three_updates upload_world).1
    = [EvPointer "host_1" ["srv"; "scripts"; "host"; "1"; "test_scripts_200"];
       EvOpen 0 scripts_100; EvFlock 0 (Some LOCK_EX); EvRmtree scripts_100;
       EvFlock 0 None; EvClose 0;
       EvPointer "host_1" ["srv"; "scripts"; "host"; "1"; "test_scripts_200"];
       EvOpen 0 ["srv"; "scripts"; "host"; "1"; "test_scripts_200"];
       EvFlock 0 (Some LOCK_EX);
       EvRmtree ["srv"; "scripts"; "host"; "1"; "test_scripts_200"];
       EvFlock 0 None; EvClose 0;
       EvPointer "host_1" ["srv"; "scripts"; "host"; "1"; "test_scripts_201"]].
Proof. repeat split; vm_compute; reflexivity. Qed.

(** The same with nothing to copy: the update stops at [os.open]. *)
Lemma update_test_scripts_missing_at_open :
  let r := update_test_scripts sample_config ["srv"; "upload"] "1" "host"
             (set_clock (Qc_of_Z 200)
                (set_fs (Dir [("srv", Dir [("upload", Dir [])])])
                   sample_world)) in
  r.2 = Raise FileNotFoundError
  ∧ trace r.1 = [EvPointer "host_1"
                   ["srv"; "scripts"; "host"; "1"; "test_scripts_200"]].
Proof. cbv zeta. split; vm_compute; reflexivity. Qed.

Lemma create_test_script_result_timeout (file_name : string)
    (stdout stderr : pydata) (run_time : Z) (timeout : option Qc)
    (r : Result.t) :
  create_test_script_result file_name stdout stderr run_time timeout
    = Some (Return r) →
  Result.timeout r = timeout.
Proof.
  unfold create_test_script_result. intros H.
  repeat case_match; by simplify_eq.
Qed.

Section Invariants.
Context {S : Type} (Inv : S → Prop).

Lemma keeps_ret {A} (a : A) : keeps Inv (ret a).
Proof. by intros s Hs. Qed.

Lemma keeps_raise {A} (e : exn) : keeps Inv (@raise S A e).
Proof. by intros s Hs. Qed.

Lemma keeps_gets {A} (f : S → A) : keeps Inv (gets f).
Proof. by intros s Hs. Qed.

Lemma keeps_lift_result {A} (r : option (pyresult A)) : keeps Inv (lift_result r).
Proof. by intros s Hs. Qed.

Lemma keeps_bind {A B} (m : St S A) (k : A → St S B) :
  keeps Inv m → (∀ a, keeps Inv (k a)) → keeps Inv (bind m k).
Proof.
  intros Hm Hk s Hs. unfold bind. specialize (Hm s Hs).
  destruct (m s) as [s1 [a|e|]]; cbn in *; [by apply Hk|done|done].
Qed.

Lemma keeps_try_except {A} (body : St S A) (handler : exn → St S A) :
  keeps Inv body → (∀ e, keeps Inv (handler e)) → keeps Inv (try_except body handler).
Proof.
  intros Hb Hh s Hs. unfold try_except. specialize (Hb s Hs).
  destruct (body s) as [s1 [a|e|]]; cbn in *; [done|by apply Hh|done].
Qed.

Lemma keeps_try_finally {A} (body : St S A) (final : St S unit) :
  keeps Inv body → keeps Inv final → keeps Inv (try_finally body final).
Proof.
  intros Hb Hf s Hs. unfold try_finally. specialize (Hb s Hs).
  destruct (body s) as [s1 [a|e|]]; cbn in *; [| |done].
  all: specialize (Hf s1 Hb); by destruct (final s1) as [s2 [[]|?|]].
Qed.

Lemma keeps_for_each {A} (body : A → St S unit) (xs : list A) :
  (∀ x, keeps Inv (body x)) → keeps Inv (for_each xs body).
Proof.
  intros Hbody. induction xs as [|x rest IH]; [apply keeps_ret|].
  cbn [for_each]. apply keeps_bind; [apply Hbody|done].
Qed.
End Invariants.

(** * run_test_scripts never enforces a timeout *)

Section NeverKills.
Variable k0 : list nat.

Lemma keeps_lift {A} (m : M A) :
  (∀ w, kills (trace (m w).1) = kills (trace w)) →
  keeps (quiet_unset k0) (lift m).
Proof.
  intros Hm [f w] [[Hk Hr] Ht]. unfold lift. specialize (Hm w).
  destruct (m w) as [w1 r]. unfold quiet_unset, quiet in *.
  cbn [fst snd] in *. by rewrite Hm.
Qed.

Lemma keeps_assign (upd : frame → frame) :
  (∀ f, results (upd f) = results f ∧ timeout (upd f) = timeout f) →
  keeps (quiet_unset k0) (assign upd).
Proof.
  intros Hupd [f w] [[Hk Hr] Ht]. destruct (Hupd f) as [Hr' Ht'].
  unfold assign, modify, quiet_unset, quiet in *.
  cbn [fst snd] in *. by rewrite Hr', Ht'.
Qed.

Lemma Popen_kills (args : string) (cwd : path) (w : world) :
  kills (trace (Popen args cwd w).1) = kills (trace w).
Proof.
  unfold Popen. repeat case_match; try done.
  cbn. unfold kills. by rewrite omap_app, app_nil_r.
Qed.

Lemma communicate_kills (pid : nat) (t : option Qc) (w : world) :
  kills (trace (communicate pid t w).1) = kills (trace w).
Proof. unfold communicate. repeat case_match; done. Qed.

(** Without a timeout [communicate] does not raise [TimeoutExpired]. *)
Lemma communicate_None_class (pid : nat) (w : world) (e : exn) :
  (communicate pid None w).2 = Raise e → exn_class e = "ValueError".
Proof. unfold communicate. repeat case_match; intros; by simplify_eq/=. Qed.

Lemma keeps_quiet_assign (upd : frame → frame) :
  (∀ f, results (upd f) = results f) → keeps (quiet k0) (assign upd).
Proof.
  intros Hupd [f w] [Hk Hr]. unfold assign, modify, quiet in *.
  cbn [fst snd] in *. by rewrite Hupd.
Qed.

Lemma bind_assign {A} (upd : frame → frame) (k : unit → F A)
    (s : frame * world) :
  bind (assign upd) k s = k tt (upd s.1, s.2).
Proof. reflexivity. Qed.

(** The inner [try]: with the local [timeout] at [None], the handler that
    kills the process group is not entered. *)
Lemma keeps_communicate (proc : nat) (handler : F unit) :
  keeps (quiet_unset k0)
    (try_except_class "TimeoutExpired"
       (let! t := local timeout in
        let! oe := lift (communicate proc t) in
        assign (set_out_err oe))
       handler).
Proof.
  intros [f w] [[Hk Hr] Ht].
  unfold try_except_class, try_except, bind, local, gets, lift, assign, modify.
  unfold quiet_unset, quiet in *. cbn [fst snd] in *. rewrite Ht.
  pose proof (communicate_kills proc None w) as Hkills.
  pose proof (communicate_None_class proc w) as Hclass.
  destruct (communicate proc None w) as [w1 [oe|e|]]; cbn [fst snd] in *.
  - by rewrite Hkills.
  - rewrite (Hclass e eq_refl), bool_decide_eq_false_2 by done.
    cbn [raise fst snd]. by rewrite Hkills.
  - by rewrite Hkills.
Qed.

(** The [finally] block: the result appended carries the local
    [timeout], which is [None]. *)
Lemma keeps_append_result (file_name : string) (start : Qc) :
  keeps (quiet_unset k0)
    (let! now := lift time_time in
     let duration := milliseconds (fsub now start) in
     let! f := local id in
     let! r := lift_result
                 (create_test_script_result file_name (out f) (err f)
                    duration (timeout f)) in
     assign (set_results (results f ++ [r]))).
Proof.
  intros [f w] [[Hk Hr] Ht].
  unfold bind, lift, time_time, local, gets, lift_result, assign, modify.
  unfold quiet_unset, quiet in *. cbn [fst snd id] in *.
  destruct (create_test_script_result _ _ _ _ _) as [[r|e|]|] eqn:Hc;
    cbn [fst snd]; try done.
  apply create_test_script_result_timeout in Hc.
  repeat split; [done| |done]. cbn.
  apply Forall_app. split; [done|]. constructor; [congruence|done].
Qed.

Lemma keeps_run_test_scripts_body (cmd : string)
    (test_scripts : list (string * option Qc)) (tests_path : path) :
  keeps (quiet k0) (run_test_scripts_body cmd test_scripts tests_path).
Proof.
  unfold run_test_scripts_body.
  apply keeps_bind; [by intros [f w] [Hk Hr]|intros _].
  apply keeps_bind; [|intros; apply keeps_gets].
  apply keeps_for_each. intros [file_name timeout_].
  apply keeps_bind; [by apply keeps_quiet_assign|intros _].
  apply keeps_bind; [by apply keeps_quiet_assign|intros _].
  apply keeps_bind; [by intros [f w] Hq|intros start].
  intros s [Hk Hs]. rewrite bind_assign.
  eapply proj1.
  apply (keeps_try_finally (quiet_unset k0)); [| |by split].
  - apply keeps_try_except.
    + apply keeps_bind; [apply keeps_lift_result|intros args].
      apply keeps_bind; [apply keeps_lift, Popen_kills|intros proc].
      apply keeps_communicate.
    + intros e. apply keeps_bind.
      { unfold getattr_message. destruct (exn_message e);
          [apply keeps_ret|apply keeps_raise]. }
      intros message. apply keeps_bind; [apply keeps_gets|intros err_].
      apply keeps_bind; [|intros sum; by apply keeps_assign].
      unfold py_add_str. destruct err_; [apply keeps_ret|apply keeps_raise].
  - apply keeps_append_result.
Qed.
End NeverKills.

(** X24.  Whatever the scripts and their configured timeouts,
    [run_test_scripts] kills no process group, and every result it returns
    has [timeout] set to [None]. *)
Lemma run_test_scripts_never_kills (cmd : string)
    (test_scripts : list (string * option Qc)) (tests_path : path)
    (w : world) :
  let r := run_test_scripts cmd test_scripts tests_path w in
  kills (trace r.1) = kills (trace w)
  ∧ ∀ rs, r.2 = Return rs → Forall (fun x => Result.timeout x = None) rs.
Proof.
  cbv zeta. unfold run_test_scripts.
  pose proof (keeps_run_test_scripts_body (kills (trace w)) cmd test_scripts
                tests_path (Frame [] (Text []) (Text []) None, w)) as H.
  destruct (run_test_scripts_body cmd test_scripts tests_path
              (Frame [] (Text []) (Text []) None, w)) as [[f w'] r] eqn:Hrun.
  destruct H as [Hk Hr]; [by split|]. cbn [fst snd] in *.
  split; [done|]. intros rs ->.
  unfold run_test_scripts_body in Hrun. rewrite bind_assign in Hrun.
  unfold bind, local, gets in Hrun.
  destruct (for_each _ _ _) as [s1 [[]|?|]] in Hrun; simplify_eq.
  exact Hr.
Qed.

(** * An error while starting a script *)

(** When starting the first script raises an exception that has no
    [message] attribute, [run_test_scripts] ends there with
    [AttributeError]: nothing is returned and the scripts after it are
    not started. *)
Lemma run_test_scripts_first_failure (cmd file_name args : string)
    (timeout_ : option Qc) (rest : list (string * option Qc))
    (tests_path : path) (w w' : world) (e : exn) :
  format cmd file_name = Return args →
  Popen args tests_path w = (w', Raise e) →
  exn_message e = None →
  run_test_scripts cmd ((file_name, timeout_) :: rest) tests_path w
  = (w', Raise (AttributeError "object has no attribute 'message'")).
Proof.
  intros Hformat Hpopen Hmsg.
  unfold run_test_scripts, run_test_scripts_body.
  rewrite bind_assign. cbn [for_each].
  unfold bind at 1 2. rewrite bind_assign, bind_assign.
  unfold bind at 1. unfold lift at 1, time_time at 1, gets at 1.
  cbn [fst snd]. rewrite bind_assign. cbn [fst snd].
  unfold try_finally, try_except, bind at 1, lift_result at 1.
  rewrite Hformat. unfold bind at 1, lift at 1. rewrite Hpopen.
  unfold bind at 1, getattr_message. rewrite Hmsg.
  reflexivity.
Qed.

(** * Running the test scripts *)

(** C1.  [b.py] sleeps for five seconds and is configured with a timeout
    of one second: [run_test_scripts] waits the five seconds, kills no
    process group, and reports the script with [timeout] set to [None]. *)
Theorem run_test_scripts_ignores_timeout :
  let r := run_test_scripts "./{}" [("b.py", Some (Qc_of_Z 1))]
             ["srv"; "sandbox"] sample_world in
  r.2 = Return [ {| Result.file_name := "b.py"; Result.time := 5000;
                    Result.timeout := None; Result.tests := [];
                    Result.stderr := None; Result.malformed := None |} ]
  ∧ trace r.1 = [EvPopen 0 "./b.py" ["srv"; "sandbox"]]
  ∧ this (clock r.1 - clock sample_world)%Qc = 5%Q.
Proof. cbv zeta. repeat split; vm_compute; reflexivity. Qed.

(** A script that never finishes is waited for without end, whatever its
    configured timeout. *)
Lemma run_test_scripts_waits_forever :
  (run_test_scripts "./{}" [("b.py", Some (Qc_of_Z 1))]
     ["srv"; "sandbox"] hanging_world).2 = Blocked.
Proof. vm_compute. reflexivity. Qed.

(** C3.  The sandbox directory is missing, so [Popen] fails for [a.py]
    with [FileNotFoundError], which has no [message] attribute: the
    handler itself raises [AttributeError], which leaves
    [run_test_scripts]; [b.py] is never started and no list of results is
    returned. *)
Theorem run_test_scripts_start_error_escapes :
  let r := run_test_scripts "./{}" [("a.py", None); ("b.py", None)]
             ["srv"; "missing"] sample_world in
  exn_message FileNotFoundError = None
  ∧ r.2 = Raise (AttributeError "object has no attribute 'message'")
  ∧ trace r.1 = [].
Proof. cbv zeta. repeat split; vm_compute; reflexivity. Qed.

(** With an exception that has a [message], the message lands in [stderr]
    and the next script runs. *)
Lemma run_test_scripts_captures_message :
  let r := run_test_scripts "./{}" [("a.py", None); ("b.py", None)]
             ["srv"; "sandbox"] custom_error_world in
  r.2 = Return [ {| Result.file_name := "a.py"; Result.time := 0;
                    Result.timeout := None; Result.tests := [];
                    Result.stderr := Some (Text ([10; 10]%N ++ py "boom"));
                    Result.malformed := None |};
                 {| Result.file_name := "b.py"; Result.time := 5000;
                    Result.timeout := None; Result.tests := [];
                    Result.stderr := None; Result.malformed := None |} ]
  ∧ trace r.1 = [EvPopen 0 "./b.py" ["srv"; "sandbox"]].
Proof. cbv zeta. repeat split; vm_compute; reflexivity. Qed.

(** A script that prints: [communicate] hands [bytes] to
    [create_test_script_result], the decoder refuses them with [TypeError]
    inside the [finally] block, and the exception leaves
    [run_test_scripts]; the scripts after it are not started. *)
Lemma run_test_scripts_output_is_bytes :
  let r := run_test_scripts "./{}"
             [("a.py", None); ("b.py", Some (Qc_of_Z 1))]
             ["srv"; "sandbox"] sample_world in
  r.2 = Raise (TypeError "first argument must be a string, not bytes")
  ∧ trace r.1 = [EvPopen 0 "./a.py" ["srv"; "sandbox"]].
Proof. cbv zeta. split; vm_compute; reflexivity. Qed.

(** * Names, keys and commands *)

Lemma _clean_dir_name_slash_free (name : string) :
  slash_free (_clean_dir_name name) = true.
Proof.
  induction name as [|c t IH]; [done|]. cbn. rewrite IH, andb_true_r.
  destruct (bool_decide (c = "/"%char)) eqn:Hc; [done|].
  by rewrite Hc.
Qed.

Lemma append_cons (c : ascii) (t b : string) :
  String c t +:+ b = String c (t +:+ b).
Proof. reflexivity. Qed.

Lemma append_empty_r (s : string) : s +:+ EmptyString = s.
Proof. induction s as [|c t IH]; [done|]. by rewrite append_cons, IH. Qed.

Lemma append_assoc (a b c : string) : (a +:+ b) +:+ c = a +:+ b +:+ c.
Proof. induction a as [|x t IH]; [done|]. by rewrite !append_cons, IH. Qed.

Lemma _clean_dir_name_app (a b : string) :
  _clean_dir_name (a +:+ b) = _clean_dir_name a +:+ _clean_dir_name b.
Proof.
  induction a as [|c t IH]; [done|].
  rewrite append_cons. cbn [_clean_dir_name]. by rewrite append_cons, IH.
Qed.

Lemma _clean_dir_name_id (name : string) :
  slash_free name = true → _clean_dir_name name = name.
Proof.
  induction name as [|c t IH]; [done|]. cbn. intros H.
  apply andb_true_iff in H as [Hc Ht]. rewrite (IH Ht).
  destruct (bool_decide (c = "/"%char)); [done|reflexivity].
Qed.

Lemma split_on_slash_free (s cur : string) :
  slash_free s = true → split_on "/" s cur = [cur +:+ s].
Proof.
  revert cur. induction s as [|c t IH]; intros cur H; cbn [split_on].
  - by rewrite append_empty_r.
  - cbn in H. apply andb_true_iff in H as [Hc Ht].
    destruct (bool_decide (c = "/"%char)); [done|].
    rewrite (IH _ Ht), append_assoc. reflexivity.
Qed.

Lemma prefix_slash_free (s : string) :
  slash_free s = true → String.prefix "/" s = false.
Proof.
  destruct s as [|c t]; [done|]. cbn [slash_free]. intros H.
  apply andb_true_iff in H as [Hc _].
  change (String.prefix "/" (String c t))
    with (if Ascii.ascii_dec "/" c then String.prefix "" t else false).
  destruct (Ascii.ascii_dec "/" c) as [<-|]; [done|reflexivity].
Qed.

(** X1.  [_clean_dir_name] keeps the length of a name and leaves no slash
    in it, so that joined to a directory the cleaned name is exactly one
    level below it (or the directory itself when the name is empty);
    cleaning twice changes nothing more. *)
Theorem _clean_dir_name_one_level (base : path) (name : string) :
  String.length (_clean_dir_name name) = String.length name
  ∧ slash_free (_clean_dir_name name) = true
  ∧ _clean_dir_name (_clean_dir_name name) = _clean_dir_name name
  ∧ os_path_join base (_clean_dir_name name)
    = base ++ (if bool_decide (name = EmptyString) then []
               else [_clean_dir_name name]).
Proof.
  pose proof (_clean_dir_name_slash_free name) as Hfree.
  split; [|split; [done|split]].
  - clear Hfree. induction name as [|c t IH]; [done|]. cbn. by rewrite IH.
  - by apply _clean_dir_name_id.
  - unfold os_path_join, split_path.
    rewrite (prefix_slash_free _ Hfree), (split_on_slash_free _ _ Hfree).
    destruct name as [|c t]; [done|].
    rewrite (bool_decide_eq_false_2 (String c t = EmptyString)) by done.
    change (EmptyString +:+ _clean_dir_name (String c t))
      with (_clean_dir_name (String c t)).
    cbn [_clean_dir_name].
    rewrite filter_cons_True by done. reflexivity.
Qed.

(** X2.  The key of the pointer is not unique to an assignment: an address
    with a slash and the same address with an underscore in its place
    share one key, and an underscore may move between the address and the
    assignment. *)
Theorem _get_test_script_key_collisions (m1 m2 x assignment_id : string) :
  _get_test_script_key (m1 +:+ "/" +:+ m2) assignment_id
  = _get_test_script_key (m1 +:+ "_" +:+ m2) assignment_id
  ∧ _get_test_script_key (m1 +:+ "_" +:+ x) assignment_id
    = _get_test_script_key m1 (_clean_dir_name x +:+ "_" +:+ assignment_id).
Proof.
  unfold _get_test_script_key. rewrite !_clean_dir_name_app.
  split; [reflexivity|].
  by rewrite !append_assoc.
Qed.

Lemma format_from_other (c : ascii) (t arg : string) (used : bool) :
  c ≠ "{"%char → c ≠ "}"%char →
  format_from (String c t) arg used
  = match format_from t arg used with
    | Return r => Return (String c r)
    | other => other
    end.
Proof.
  intros H1 H2.
  destruct c as [[] [] [] [] [] [] [] []]; try done; reflexivity.
Qed.

Lemma format_from_brace_free (s arg : string) (used : bool) :
  brace_free s = true → format_from s arg used = Return s.
Proof.
  induction s as [|c t IH]; [done|]. cbn [brace_free]. intros H.
  apply andb_true_iff in H as [H Ht]. apply andb_true_iff in H as [H1 H2].
  apply negb_true_iff, bool_decide_eq_false in H1, H2.
  by rewrite format_from_other, IH.
Qed.

Lemma format_from_app (pre rest arg : string) (used : bool) :
  brace_free pre = true →
  format_from (pre +:+ rest) arg used
  = match format_from rest arg used with
    | Return r => Return (pre +:+ r)
    | other => other
    end.
Proof.
  induction pre as [|c t IH]; cbn [brace_free]; intros H.
  - change (EmptyString +:+ rest) with rest. by destruct (format_from _ _ _).
  - apply andb_true_iff in H as [H Ht]. apply andb_true_iff in H as [H1 H2].
    apply negb_true_iff, bool_decide_eq_false in H1, H2.
    rewrite append_cons, format_from_other, IH by done.
    by destruct (format_from rest arg used).
Qed.

Lemma brace_free_app (a b : string) :
  brace_free (a +:+ b) = brace_free a && brace_free b.
Proof.
  induction a as [|c t IH]; [done|].
  rewrite append_cons. cbn [brace_free]. by rewrite IH, andb_assoc.
Qed.

Lemma brace_free_spaced (words : list string) :
  Forall (fun x => brace_free x = true) words → brace_free (spaced words) = true.
Proof.
  induction 1 as [|x rest Hx _ IH]; [done|]. cbn [spaced].
  by rewrite !brace_free_app, Hx, IH.
Qed.

Lemma join_spaces_spaced (first : string) (words : list string) :
  join_spaces (first :: words) = first +:+ spaced words.
Proof.
  cbn [join_spaces]. revert first.
  induction words as [|x rest IH]; intros first; cbn [foldl spaced].
  - by rewrite append_empty_r.
  - by rewrite IH, !append_assoc.
Qed.

(** The template with its one field filled in. *)
Lemma format_script_field (pre post arg : string) :
  brace_free pre = true → brace_free post = true →
  format (pre +:+ "{}" +:+ post) arg = Return (pre +:+ arg +:+ post).
Proof.
  intros Hpre Hpost. unfold format. rewrite (format_from_app _ _ _ _ Hpre).
  change (format_from ("{}" +:+ post) arg false)
    with (match format_from post arg true with
          | Return r => Return (arg +:+ r)
          | other => other
          end).
  by rewrite (format_from_brace_free _ _ _ Hpost).
Qed.

(** X3.  When none of its arguments holds a brace, the command
    [test_run_command] returns, formatted with a script name, runs that
    script from the current directory with the five arguments after it,
    and, given a user name, does so through [sudo -u] and [bash -c] with
    the same line between double quotes. *)
Theorem test_run_command_format (markus_address user_api_key assignment_id
    group_id group_repo_name test_username script : string) :
  let arguments := [markus_address; user_api_key; assignment_id; group_id;
                    group_repo_name] in
  let line := join_spaces (("./" +:+ script) :: arguments) in
  Forall (fun x => brace_free x = true) (test_username :: arguments) →
  format (test_run_command markus_address user_api_key assignment_id
            group_id group_repo_name None) script
  = Return line
  ∧ format (test_run_command markus_address user_api_key assignment_id
              group_id group_repo_name (Some test_username)) script
    = Return (join_spaces ["sudo"; "-u"; test_username; "--"; "bash"; "-c";
                String (ascii_of_N QUOTE) line
                +:+ String (ascii_of_N QUOTE) EmptyString]).
Proof.
  intros arguments line Hall.
  apply Forall_cons in Hall as [Huser Hargs].
  pose proof (brace_free_spaced _ Hargs) as Hsp.
  assert (line = "./" +:+ script +:+ spaced arguments) as Hline.
  { unfold line. by rewrite join_spaces_spaced, append_assoc. }
  unfold test_run_command. fold arguments.
  rewrite !(join_spaces_spaced "./{}").
  split.
  - change ("./{}" +:+ spaced arguments)
      with ("./" +:+ "{}" +:+ spaced arguments).
    rewrite format_script_field by done. by rewrite Hline.
  - rewrite !join_spaces_spaced. cbn [spaced].
    set (q := String (ascii_of_N QUOTE) EmptyString).
    change (String (ascii_of_N QUOTE) ("./{}" +:+ spaced arguments))
      with (q +:+ "./" +:+ "{}" +:+ spaced arguments).
    change (String (ascii_of_N QUOTE) line) with (q +:+ line).
    rewrite Hline, !append_empty_r.
    replace ("sudo" +:+ " " +:+ "-u" +:+ " " +:+ test_username +:+ " " +:+ "--"
             +:+ " " +:+ "bash" +:+ " " +:+ "-c" +:+ " "
             +:+ (q +:+ "./" +:+ "{}" +:+ spaced arguments) +:+ q)
      with (("sudo -u " +:+ test_username +:+ " -- bash -c " +:+ q +:+ "./")
            +:+ "{}" +:+ (spaced arguments +:+ q))
      by (rewrite !append_assoc; reflexivity).
    rewrite format_script_field.
    + rewrite !append_assoc. reflexivity.
    + rewrite !brace_free_app, Huser. reflexivity.
    + by rewrite brace_free_app, Hsp.
Qed.

Lemma test_run_command_format_witness :
  Forall (fun x => brace_free x = true) ["f"; "a"; "b"; "c"; "d"; "e"]
  ∧ format (test_run_command "a" "b" "c" "d" "e" None) "myscript.py"
    = Return "./myscript.py a b c d e".
Proof.
  assert (Forall (fun x => brace_free x = true) ["f"; "a"; "b"; "c"; "d"; "e"])
    as Hall by (repeat constructor).
  split; [exact Hall|].
  exact (proj1 (test_run_command_format "a" "b" "c" "d" "e" "f" "myscript.py"
                  Hall)).
Defined.

(** * The Redis hashes *)

(** X4.  Setting the pointer of an assignment returns the directory just
    set; a later read returns it again, and the pointer of every
    assignment with another key reads as before. *)
Theorem _test_script_directory_set_get (markus_address assignment_id : string)
    (d : path) (w : world) :
  let w1 := (_test_script_directory markus_address assignment_id (Some d) w).1 in
  (_test_script_directory markus_address assignment_id (Some d) w).2
    = Return (Some d)
  ∧ _test_script_directory markus_address assignment_id None w1
    = (w1, Return (Some d))
  ∧ (∀ address' assignment',
       _get_test_script_key address' assignment'
         ≠ _get_test_script_key markus_address assignment_id →
       _test_script_directory address' assignment' None w1
       = (w1, Return (CURRENT_TEST_SCRIPT_HASH w
                        !! _get_test_script_key address' assignment')))
  ∧ fs w1 = fs w ∧ fds w1 = fds w ∧ locks w1 = locks w.
Proof.
  cbv zeta. unfold _test_script_directory, bind, modify, ret, gets. cbn.
  rewrite lookup_insert_eq. repeat split.
  intros address' assignment' Hne. by rewrite lookup_insert_ne.
Qed.

Lemma list_ascii_of_string_app (a b : string) :
  list_ascii_of_string (a +:+ b)
  = list_ascii_of_string a ++ list_ascii_of_string b.
Proof.
  induction a as [|c t IH]; [done|]. rewrite append_cons. cbn. by rewrite IH.
Qed.

Lemma list_ascii_of_string_inj (a b : string) :
  list_ascii_of_string a = list_ascii_of_string b → a = b.
Proof.
  intros H. rewrite <- (string_of_list_ascii_of_string a),
    <- (string_of_list_ascii_of_string b). by rewrite H.
Qed.

(** The fields of two queues never share a key, and the three fields of
    one queue have three keys. *)
Lemma stat_key_inj (q1 q2 s1 s2 : string) :
  s1 ∈ stat_suffixes → s2 ∈ stat_suffixes →
  q1 +:+ s1 = q2 +:+ s2 → q1 = q2 ∧ s1 = s2.
Proof.
  intros H1 H2 Heq.
  apply (f_equal list_ascii_of_string) in Heq.
  rewrite !list_ascii_of_string_app in Heq.
  unfold stat_suffixes in *.
  repeat match goal with
  | H : _ ∈ _ :: _ |- _ => apply elem_of_cons in H as [->|H]
  | H : _ ∈ [] |- _ => by apply elem_of_nil in H
  end.
  all: cbn [list_ascii_of_string] in Heq.
  all: try (apply app_inj_2 in Heq as [Hq _]; [|done];
            apply list_ascii_of_string_inj in Hq; by subst).
  all: exfalso.
  all: first
    [ by apply app_inj_2 in Heq as [_ ?]
    | rewrite (cons_middle _ (list_ascii_of_string q1)), app_assoc in Heq;
      by apply app_inj_2 in Heq as [_ ?]
    | rewrite (cons_middle _ (list_ascii_of_string q2)), app_assoc in Heq;
      by apply app_inj_2 in Heq as [_ ?] ].
Qed.

Ltac stat_key_ne :=
  let H := fresh in
  intros H; apply stat_key_inj in H as [? ?];
    [congruence | unfold stat_suffixes; repeat constructor..].

Ltac pop_lookup :=
  repeat first
    [ rewrite lookup_insert_eq
    | rewrite lookup_delete_eq
    | rewrite lookup_insert_ne by stat_key_ne
    | rewrite lookup_delete_ne by stat_key_ne ].

(** One pop in the middle of a burst. *)
Lemma update_pop_interval_stat_next (q : string) (w : world) (s0 : rval)
    (n : Z) :
  POP_HASH w !! (q +:+ "_start") = Some s0 →
  POP_HASH w !! (q +:+ "_count") = Some (RInt n) →
  let r := update_pop_interval_stat q w in
  r.2 = Return tt
  ∧ clock r.1 = clock w
  ∧ POP_HASH r.1 !! (q +:+ "_start") = Some s0
  ∧ POP_HASH r.1 !! (q +:+ "_last") = Some (RFloat (b64 (clock w)))
  ∧ POP_HASH r.1 !! (q +:+ "_count") = Some (RInt (n + 1)).
Proof.
  intros Hs Hc. cbv zeta.
  unfold update_pop_interval_stat, bind, time_time, gets, pop_hsetnx,
    pop_hset, pop_hincrby, modify. cbn. rewrite Hs. cbn.
  rewrite lookup_insert_ne, Hc by stat_key_ne. cbn.
  repeat split; by pop_lookup.
Qed.

(** The first pop of a burst. *)
Lemma update_pop_interval_stat_first (q : string) (w : world) :
  POP_HASH w !! (q +:+ "_start") = None →
  POP_HASH w !! (q +:+ "_count") = None
    ∨ POP_HASH w !! (q +:+ "_count") = Some (RInt 0) →
  let r := update_pop_interval_stat q w in
  r.2 = Return tt
  ∧ clock r.1 = clock w
  ∧ POP_HASH r.1 !! (q +:+ "_start") = Some (RFloat (b64 (clock w)))
  ∧ POP_HASH r.1 !! (q +:+ "_last") = Some (RFloat (b64 (clock w)))
  ∧ POP_HASH r.1 !! (q +:+ "_count") = Some (RInt 1).
Proof.
  intros Hs Hc. cbv zeta.
  unfold update_pop_interval_stat, bind, time_time, gets, pop_hsetnx,
    pop_hset, pop_hincrby, modify. cbn. rewrite Hs. cbn.
  rewrite !lookup_insert_ne by stat_key_ne.
  destruct Hc as [-> | ->]; cbn.
  all: repeat split; by pop_lookup.
Qed.

Lemma record_pops_cons (q : string) (t : Qc) (rest : list Qc) (w : world) :
  record_pops q (t :: rest) w
  = match update_pop_interval_stat q (set_clock t w) with
    | (w', Return _) => record_pops q rest w'
    | (w', Raise e) => (w', Raise e)
    | (w', Blocked) => (w', Blocked)
    end.
Proof. reflexivity. Qed.

Lemma record_pops_next (q : string) (times : list Qc) : ∀ (w : world)
    (s0 l0 : rval) (n : Z),
  POP_HASH w !! (q +:+ "_start") = Some s0 →
  POP_HASH w !! (q +:+ "_last") = Some l0 →
  POP_HASH w !! (q +:+ "_count") = Some (RInt n) →
  let r := record_pops q times w in
  r.2 = Return tt
  ∧ POP_HASH r.1 !! (q +:+ "_start") = Some s0
  ∧ POP_HASH r.1 !! (q +:+ "_last")
    = Some (default l0 ((fun t => RFloat (b64 t)) <$> last times))
  ∧ POP_HASH r.1 !! (q +:+ "_count")
    = Some (RInt (n + Z.of_nat (length times))).
Proof.
  induction times as [|t rest IH]; intros w s0 l0 n Hs Hl Hc; cbv zeta.
  - cbn. rewrite Z.add_0_r. done.
  - rewrite record_pops_cons.
    destruct (update_pop_interval_stat_next q (set_clock t w) s0 n Hs Hc)
      as (Hr & _ & Hs1 & Hl1 & Hc1).
    destruct (update_pop_interval_stat q (set_clock t w)) as [w1 r1].
    cbn [fst snd] in *. subst r1.
    destruct (IH w1 _ _ _ Hs1 Hl1 Hc1) as (Hr2 & Hs2 & Hl2 & Hc2).
    split; [done|]. split; [done|]. split.
    + rewrite Hl2. cbn [clock set_clock]. rewrite last_cons.
      by destruct (last rest).
    + rewrite Hc2. f_equal. f_equal. cbn [length]. lia.
Qed.

(** Pops recorded from a state with no burst in progress. *)
Lemma record_pops_first (q : string) (t : Qc) (times : list Qc) (w : world) :
  POP_HASH w !! (q +:+ "_start") = None →
  POP_HASH w !! (q +:+ "_count") = None
    ∨ POP_HASH w !! (q +:+ "_count") = Some (RInt 0) →
  let r := record_pops q (t :: times) w in
  r.2 = Return tt
  ∧ POP_HASH r.1 !! (q +:+ "_start") = Some (RFloat (b64 t))
  ∧ POP_HASH r.1 !! (q +:+ "_last")
    = Some (RFloat (b64 (default t (last times))))
  ∧ POP_HASH r.1 !! (q +:+ "_count")
    = Some (RInt (Z.of_nat (S (length times)))).
Proof.
  intros Hs Hc. cbv zeta.
  rewrite record_pops_cons.
  destruct (update_pop_interval_stat_first q (set_clock t w) Hs Hc)
    as (Hr & _ & Hs1 & Hl1 & Hc1).
  destruct (update_pop_interval_stat q (set_clock t w)) as [w1 r1].
  cbn [fst snd clock set_clock] in *. subst r1.
  destruct (record_pops_next q times w1 _ _ _ Hs1 Hl1 Hc1)
    as (Hr2 & Hs2 & Hl2 & Hc2).
  split; [done|]. split; [done|]. split.
  - rewrite Hl2. by destruct (last times).
  - rewrite Hc2. f_equal. f_equal. lia.
Qed.

Lemma clear_pop_interval_stat_lookup (q : string) (w : world) :
  (clear_pop_interval_stat q w).2 = Return tt
  ∧ POP_HASH (clear_pop_interval_stat q w).1 !! (q +:+ "_start") = None
  ∧ POP_HASH (clear_pop_interval_stat q w).1 !! (q +:+ "_last")
    = Some (RInt 0)
  ∧ POP_HASH (clear_pop_interval_stat q w).1 !! (q +:+ "_count")
    = Some (RInt 0).
Proof. cbn. repeat split; by pop_lookup. Qed.

(** The statistics of another queue are out of reach. *)
Lemma update_pop_interval_stat_other (q1 q2 s : string) (w : world) :
  q1 ≠ q2 → s ∈ stat_suffixes →
  POP_HASH (update_pop_interval_stat q1 w).1 !! (q2 +:+ s)
  = POP_HASH w !! (q2 +:+ s).
Proof.
  intros Hne Hs.
  assert (∀ s1, s1 ∈ stat_suffixes → q1 +:+ s1 ≠ q2 +:+ s) as Hkey.
  { intros s1 Hs1 Heq. by apply stat_key_inj in Heq as [? ?]. }
  assert (q1 +:+ "_start" ≠ q2 +:+ s) by (apply Hkey; repeat constructor).
  assert (q1 +:+ "_last" ≠ q2 +:+ s) by (apply Hkey; repeat constructor).
  assert (q1 +:+ "_count" ≠ q2 +:+ s) by (apply Hkey; repeat constructor).
  unfold update_pop_interval_stat, bind, time_time, gets, pop_hsetnx,
    pop_hset, pop_hincrby, modify. cbn.
  repeat case_match; simplify_eq; cbn; by rewrite ?lookup_insert_ne.
Qed.

Lemma clear_pop_interval_stat_other (q1 q2 s : string) (w : world) :
  q1 ≠ q2 → s ∈ stat_suffixes →
  POP_HASH (clear_pop_interval_stat q1 w).1 !! (q2 +:+ s)
  = POP_HASH w !! (q2 +:+ s).
Proof.
  intros Hne Hs.
  assert (∀ s1, s1 ∈ stat_suffixes → q1 +:+ s1 ≠ q2 +:+ s) as Hkey.
  { intros s1 Hs1 Heq. by apply stat_key_inj in Heq as [? ?]. }
  assert (q1 +:+ "_start" ≠ q2 +:+ s) by (apply Hkey; repeat constructor).
  assert (q1 +:+ "_last" ≠ q2 +:+ s) by (apply Hkey; repeat constructor).
  assert (q1 +:+ "_count" ≠ q2 +:+ s) by (apply Hkey; repeat constructor).
  cbn. by rewrite !lookup_insert_ne, lookup_delete_ne.
Qed.

(** X5.  Pops recorded from a state with no burst in progress: after any
    number of them the hash holds the time of the first pop as the start,
    the time of the last one, and their number; the times are the floats
    that [time.time()] returned. *)
Theorem record_pops_burst (queue_name : string) (t : Qc) (times : list Qc)
    (w : world) :
  POP_HASH w !! (queue_name +:+ "_start") = None →
  POP_HASH w !! (queue_name +:+ "_count") = None
    ∨ POP_HASH w !! (queue_name +:+ "_count") = Some (RInt 0) →
  let r := record_pops queue_name (t :: times) w in
  r.2 = Return tt
  ∧ POP_HASH r.1 !! (queue_name +:+ "_start") = Some (RFloat (b64 t))
  ∧ POP_HASH r.1 !! (queue_name +:+ "_last")
    = Some (RFloat (b64 (default t (last times))))
  ∧ POP_HASH r.1 !! (queue_name +:+ "_count")
    = Some (RInt (Z.of_nat (S (length times)))).
Proof. apply record_pops_first. Qed.

Lemma record_pops_burst_witness :
  POP_HASH empty_world !! ("q" +:+ "_start") = None
  ∧ POP_HASH (record_pops "q" [Qc_of_Z 0; Qc_of_Z 2; Qc_of_Z 5] empty_world).1
      !! ("q" +:+ "_count") = Some (RInt 3).
Proof.
  assert (POP_HASH empty_world !! ("q" +:+ "_start") = None) as Hs
    by reflexivity.
  assert (POP_HASH empty_world !! ("q" +:+ "_count") = None
          ∨ POP_HASH empty_world !! ("q" +:+ "_count") = Some (RInt 0)) as Hc
    by (left; reflexivity).
  split; [exact Hs|].
  exact (proj2 (proj2 (proj2
    (record_pops_burst "q" (Qc_of_Z 0) [Qc_of_Z 2; Qc_of_Z 5] empty_world
       Hs Hc)))).
Defined.

(** X6.  The average read back after a burst of pops recorded from a state
    with no burst in progress: the number of pops stands where the time of
    the last pop would, so the times of the later pops do not enter the
    result. *)
Theorem get_avg_pop_interval_after_pops (queue_name : string) (t : Qc)
    (times : list Qc) (w : world) :
  POP_HASH w !! (queue_name +:+ "_start") = None →
  POP_HASH w !! (queue_name +:+ "_count") = None
    ∨ POP_HASH w !! (queue_name +:+ "_count") = Some (RInt 0) →
  let w' := (record_pops queue_name (t :: times) w).1 in
  let n := Z.of_nat (S (length times)) in
  get_avg_pop_interval queue_name w'
  = (w', Return (Some (if bool_decide (times ≠ [])
                       then fdiv (fsub (b64 (Qc_of_Z n)) (b64 t))
                              (b64 (Qc_of_Z (n - 1)))
                       else 0%Qc))).
Proof.
  intros Hs Hc. cbv zeta.
  destruct (record_pops_first queue_name t times w Hs Hc)
    as (_ & Hs' & _ & Hc').
  rewrite (get_avg_pop_interval_burst _ _ _ _ Hs' Hc').
  do 3 f_equal. destruct times as [|t' times]; [done|].
  rewrite bool_decide_eq_true_2 by (cbn [length]; lia).
  by rewrite bool_decide_eq_true_2.
Qed.

Lemma get_avg_pop_interval_after_pops_witness :
  POP_HASH empty_world !! ("q" +:+ "_start") = None
  ∧ (get_avg_pop_interval "q"
       (record_pops "q" [Qc_of_Z 0; Qc_of_Z 7] empty_world).1).2
    = Return (Some (Qc_of_Z 2)).
Proof.
  assert (POP_HASH empty_world !! ("q" +:+ "_start") = None) as Hs
    by reflexivity.
  assert (POP_HASH empty_world !! ("q" +:+ "_count") = None
          ∨ POP_HASH empty_world !! ("q" +:+ "_count") = Some (RInt 0)) as Hc
    by (left; reflexivity).
  split; [exact Hs|].
  rewrite (get_avg_pop_interval_after_pops "q" (Qc_of_Z 0) [Qc_of_Z 7]
             empty_world Hs Hc).
  vm_compute. reflexivity.
Defined.

(** X7.  [clear_pop_interval_stat] ends the burst whatever was recorded:
    no average is reported after it, and the pops that follow are counted
    from the first of them. *)
Theorem clear_pop_interval_stat_restarts (queue_name : string) (t : Qc)
    (times : list Qc) (w : world) :
  let w0 := (clear_pop_interval_stat queue_name w).1 in
  let r := record_pops queue_name (t :: times) w0 in
  get_avg_pop_interval queue_name w0 = (w0, Return None)
  ∧ r.2 = Return tt
  ∧ POP_HASH r.1 !! (queue_name +:+ "_start") = Some (RFloat (b64 t))
  ∧ POP_HASH r.1 !! (queue_name +:+ "_count")
    = Some (RInt (Z.of_nat (S (length times)))).
Proof.
  cbv zeta.
  destruct (clear_pop_interval_stat_lookup queue_name w)
    as (_ & Hs & _ & Hc).
  split; [by apply get_avg_pop_interval_absent|].
  destruct (record_pops_first queue_name t times _ Hs (or_intror Hc))
    as (Hr & Hs' & _ & Hc').
  done.
Qed.

(** X8.  The three statistics of a queue are read and written by that
    queue's name only: recording a pop for, or clearing, a queue with a
    different name leaves them as they were. *)
Theorem pop_interval_stat_per_queue (q1 q2 s : string) (w : world) :
  q1 ≠ q2 → s ∈ stat_suffixes →
  POP_HASH (update_pop_interval_stat q1 w).1 !! (q2 +:+ s)
  = POP_HASH w !! (q2 +:+ s)
  ∧ POP_HASH (clear_pop_interval_stat q1 w).1 !! (q2 +:+ s)
    = POP_HASH w !! (q2 +:+ s)
  ∧ (get_avg_pop_interval q2 (update_pop_interval_stat q1 w).1).2
    = (get_avg_pop_interval q2 w).2
  ∧ (get_avg_pop_interval q2 (clear_pop_interval_stat q1 w).1).2
    = (get_avg_pop_interval q2 w).2.
Proof.
  intros Hne Hs.
  split; [by apply update_pop_interval_stat_other|].
  split; [by apply clear_pop_interval_stat_other|].
  assert (∀ w1 w2 : world,
    (∀ s, s ∈ stat_suffixes →
          POP_HASH w1 !! (q2 +:+ s) = POP_HASH w2 !! (q2 +:+ s)) →
    (get_avg_pop_interval q2 w1).2 = (get_avg_pop_interval q2 w2).2) as Havg.
  { intros w1 w2 Heq. unfold get_avg_pop_interval, bind.
    rewrite !get_pop_interval_stat_eq.
    rewrite (Heq "_start"), (Heq "_count") by (unfold stat_suffixes; repeat constructor).
    destruct (POP_HASH w2 !! (q2 +:+ "_start")) as [[z|x]|];
      destruct (POP_HASH w2 !! (q2 +:+ "_count")) as [[z'|x']|];
      reflexivity. }
  split; apply Havg; intros s' Hs'.
  - by apply update_pop_interval_stat_other.
  - by apply clear_pop_interval_stat_other.
Qed.

Lemma pop_interval_stat_per_queue_witness :
  "a" ≠ "a_last" ∧ "_start" ∈ stat_suffixes
  ∧ POP_HASH (update_pop_interval_stat "a" empty_world).1
      !! ("a_last" +:+ "_start") = None.
Proof.
  assert ("a" ≠ "a_last") as Hne by discriminate.
  assert ("_start" ∈ stat_suffixes) as Hs by (unfold stat_suffixes; repeat constructor).
  split; [exact Hne|]. split; [exact Hs|].
  exact (proj1 (pop_interval_stat_per_queue "a" "a_last" "_start" empty_world
                  Hne Hs)).
Defined.

(** * Maintenance *)

Lemma for_each_cons_eq {A} (body : A → M unit) (x : A) (rest : list A)
    (w : world) :
  for_each (x :: rest) body w
  = match body x w with
    | (w', Return _) => for_each rest body w'
    | (w', Raise e) => (w', Raise e)
    | (w', Blocked) => (w', Blocked)
    end.
Proof. reflexivity. Qed.

(** One turn of the loop of [clean_up]. *)
Lemma clean_up_turn (q : string) (c : nat) (w : world) :
  let step :=
    (if bool_decide (q ≠ "failed") then
       if bool_decide (c = 0) then clear_pop_interval_stat q else ret tt
     else ret tt) : M unit in
  (step w).2 = Return tt
  ∧ (∃ h, (step w).1 = set_pop_hash h w)
  ∧ (q ≠ "failed" → c = 0 → (step w).1 = (clear_pop_interval_stat q w).1)
  ∧ (¬ (q ≠ "failed" ∧ c = 0) → (step w).1 = w).
Proof.
  cbv zeta. repeat case_bool_decide; cbn.
  - split; [done|]. split; [by eexists|]. split; [done|]. by intros [].
  - split; [done|]. split; [by exists (POP_HASH w); destruct w|].
    split; [done|]. done.
  - split; [done|]. split; [by exists (POP_HASH w); destruct w|].
    split; [done|]. done.
Qed.

(** The loop of [clean_up] over any list of queues. *)
Lemma clean_up_loop (queues : list (string * nat)) : ∀ w : world,
  let r :=
    for_each queues (fun '(name, count) =>
      if bool_decide (name ≠ "failed") then
        if bool_decide (count = 0) then clear_pop_interval_stat name
        else ret tt
      else ret tt) w in
  r.2 = Return tt
  ∧ (∃ h, r.1 = set_pop_hash h w)
  ∧ (∀ name, (name, 0) ∈ queues → name ≠ "failed" →
       POP_HASH r.1 !! (name +:+ "_start") = None
       ∧ POP_HASH r.1 !! (name +:+ "_last") = Some (RInt 0)
       ∧ POP_HASH r.1 !! (name +:+ "_count") = Some (RInt 0))
  ∧ (∀ name s, s ∈ stat_suffixes →
       ¬ ((name, 0) ∈ queues ∧ name ≠ "failed") →
       POP_HASH r.1 !! (name +:+ s) = POP_HASH w !! (name +:+ s)).
Proof.
  set (body := fun '(name, count) => _).
  induction queues as [|[q c] rest IH]; intros w; cbv zeta.
  - cbn. split; [done|]. split; [by exists (POP_HASH w); destruct w|].
    split; [|done]. intros name Hin. by apply elem_of_nil in Hin.
  - rewrite for_each_cons_eq.
    destruct (clean_up_turn q c w) as (Hr & [h Hh] & Hclear & Hsame).
    change (if bool_decide (q ≠ "failed") then _ else _) with (body (q, c))
      in Hr, Hh, Hclear, Hsame.
    destruct (body (q, c) w) as [w1 r1]. cbn [fst snd] in *. subst r1.
    destruct (IH w1) as (Hr2 & [h2 Hh2] & Hcleared & Hkept).
    split; [done|]. split; [exists h2; by rewrite Hh2, Hh|]. split.
    + intros name Hin Hname.
      destruct (decide ((name, 0) ∈ rest)) as [Hrest|Hrest];
        [by apply Hcleared|].
      apply elem_of_cons in Hin as [Heq|Hin]; [|done]. simplify_eq.
      rewrite !Hkept by (try (unfold stat_suffixes; repeat constructor);
                         by intros [? ?]).
      rewrite Hclear by done.
      by destruct (clear_pop_interval_stat_lookup q w) as (_ & ? & ? & ?).
    + intros name s Hs Hnot.
      rewrite Hkept; [|done|].
      2: { intros [Hin Hname]. apply Hnot. split; [|done].
           apply elem_of_cons. by right. }
      destruct (decide (q ≠ "failed" ∧ c = 0)) as [[Hq ->]|Hno].
      * rewrite Hclear by done.
        apply clear_pop_interval_stat_other; [|done].
        intros ->. apply Hnot. split; [|done]. apply elem_of_cons. by left.
      * by rewrite Hsame.
Qed.

Lemma clean_up_eq (w : world) :
  clean_up w
  = for_each (rq_queues w) (fun '(name, count) =>
      if bool_decide (name ≠ "failed") then
        if bool_decide (count = 0) then clear_pop_interval_stat name
        else ret tt
      else ret tt) w.
Proof. reflexivity. Qed.

(** X9.  [clean_up] always returns and touches the pop statistics only;
    after it every empty queue other than the failed one has no burst
    recorded, and the statistics of every other queue are as before. *)
Theorem clean_up_clears_empty_queues (w : world) :
  let r := clean_up w in
  r.2 = Return tt
  ∧ (∃ h, r.1 = set_pop_hash h w)
  ∧ (∀ name, (name, 0) ∈ rq_queues w → name ≠ "failed" →
       POP_HASH r.1 !! (name +:+ "_start") = None
       ∧ POP_HASH r.1 !! (name +:+ "_last") = Some (RInt 0)
       ∧ POP_HASH r.1 !! (name +:+ "_count") = Some (RInt 0)
       ∧ get_avg_pop_interval name r.1 = (r.1, Return None))
  ∧ (∀ name s, s ∈ stat_suffixes →
       ¬ ((name, 0) ∈ rq_queues w ∧ name ≠ "failed") →
       POP_HASH r.1 !! (name +:+ s) = POP_HASH w !! (name +:+ s)).
Proof.
  cbv zeta. rewrite clean_up_eq.
  destruct (clean_up_loop (rq_queues w) w) as (Hr & Hh & Hcleared & Hkept).
  split; [done|]. split; [done|]. split; [|done].
  intros name Hin Hname. destruct (Hcleared name Hin Hname) as (Hs & Hl & Hc).
  repeat split; try done. by apply get_avg_pop_interval_absent.
Qed.

Lemma clean_up_frame (w : world) : ∃ h, (clean_up w).1 = set_pop_hash h w.
Proof. rewrite clean_up_eq. apply clean_up_loop. Qed.

(** X10.  The wrapper [clean_after] builds runs [clean_up] once the function
    has finished, whether it returned or raised; what the function returned
    is dropped, what it raised is raised again after the clean-up, and a
    function that never finishes is never cleaned up after. *)
Theorem clean_after_outcome {A} (func : M A) (w : world) :
  clean_after func w
  = match func w with
    | (w', Return _) => ((clean_up w').1, Return tt)
    | (w', Raise e) => ((clean_up w').1, Raise e)
    | (w', Blocked) => (w', Blocked)
    end.
Proof. apply clean_after_eq. Qed.

(** * Borrowing tester users *)

Lemma with_tester_user_next (body : json → M unit) (w : world) :
  leaves_pool body → USER_LIST w ≠ [] →
  let r := with_ tester_user body w in
  USER_LIST r.1 = next_user (USER_LIST w) ∧ r.2 ≠ Blocked.
Proof.
  intros Hbody Hne. cbv zeta. unfold with_, tester_user, bind, blpop_user.
  destruct (USER_LIST w) as [|user_data rest] eqn:Hl; [done|].
  destruct (json_loads user_data) as [user|e|] eqn:Hj; cbn.
  - destruct (Hbody user (set_user_list rest w)) as [Hsame Hnb].
    destruct (body user (set_user_list rest w)) as [w' [[]|e|]];
      cbn in *; by rewrite ?Hsame.
  - done.
  - unfold json_loads in Hj.
    destruct (raw_decode_from_outcome user_data (Json._w user_data 0))
      as [[[obj end_] Hd] | [Hd | (e & _ & Hd)]]; rewrite Hd in Hj;
      [by case_bool_decide|done|done].
Qed.

Lemma iter_next_user (a : list pystr) : ∀ b,
  Nat.iter (length a) next_user (a ++ b) = b ++ a.
Proof.
  induction a as [|x a IH]; intros b; [by rewrite app_nil_r|].
  cbn [length]. rewrite Nat.iter_succ_r. cbn [app next_user].
  rewrite <- app_assoc, IH, <- app_assoc. done.
Qed.

Lemma acquire_release_pairs_cons (body : json → M unit)
    (rest : list (json → M unit)) (w : world) :
  acquire_release_pairs (body :: rest) w
  = match with_ tester_user body w with
    | (w', Blocked) => (w', Blocked)
    | (w', _) => acquire_release_pairs rest w'
    end.
Proof.
  cbn [acquire_release_pairs]. unfold bind at 1, try_except.
  by destruct (with_ tester_user body w) as [w' [[]|e|]].
Qed.

Lemma acquire_release_pairs_next (bodies : list (json → M unit)) : ∀ w,
  Forall leaves_pool bodies → USER_LIST w ≠ [] →
  let r := acquire_release_pairs bodies w in
  r.2 = Return tt
  ∧ USER_LIST r.1 = Nat.iter (length bodies) next_user (USER_LIST w).
Proof.
  induction bodies as [|body rest IH]; intros w Hall Hne; [done|].
  apply Forall_cons in Hall as [Hbody Hrest]. cbv zeta.
  rewrite acquire_release_pairs_cons. cbn [length].
  rewrite Nat.iter_succ_r.
  destruct (with_tester_user_next body w Hbody Hne) as [Hnext Hnb].
  assert (next_user (USER_LIST w) ≠ []) as Hne'.
  { destruct (USER_LIST w) as [|u l]; [done|]. by destruct l. }
  rewrite <- Hnext in *.
  destruct (with_ tester_user body w) as [w1 [[]|e|]]; cbn in *;
    [by apply IH|by apply IH|done].
Qed.

(** X11.  Tester users are handed out in turn: each acquisition takes the
    head of the list and gives it back at the tail, whether the job
    returned or raised, so after as many jobs as there are users the list
    is back in its first order. *)
Theorem tester_user_round_robin (bodies : list (json → M unit)) (w : world) :
  Forall leaves_pool bodies → USER_LIST w ≠ [] →
  let r := acquire_release_pairs bodies w in
  r.2 = Return tt
  ∧ USER_LIST r.1 = Nat.iter (length bodies) next_user (USER_LIST w)
  ∧ (length bodies = length (USER_LIST w) → USER_LIST r.1 = USER_LIST w).
Proof.
  intros Hall Hne. cbv zeta.
  destruct (acquire_release_pairs_next bodies w Hall Hne) as [Hr Hl].
  split; [done|]. split; [done|]. intros Hlen.
  rewrite Hl, Hlen.
  rewrite <- (app_nil_r (USER_LIST w)) at 2.
  by rewrite iter_next_user.
Qed.

Lemma tester_user_round_robin_witness :
  Forall leaves_pool [(fun _ => ret tt); (fun _ => raise FileNotFoundError)]
  ∧ USER_LIST (set_user_list [py "1"; py "2"; py "3"] empty_world) ≠ []
  ∧ USER_LIST
      (acquire_release_pairs
         [(fun _ => ret tt); (fun _ => raise FileNotFoundError)]
         (set_user_list [py "1"; py "2"; py "3"] empty_world)).1
    = [py "3"; py "1"; py "2"].
Proof.
  assert (Forall leaves_pool
            [(fun _ => ret tt); (fun _ => raise FileNotFoundError)]) as Hall.
  { apply Forall_cons_2; [intros user w0; by split|].
    apply Forall_cons_2; [intros user w0; by split|]. apply Forall_nil_2. }
  assert (USER_LIST (set_user_list [py "1"; py "2"; py "3"] empty_world)
          ≠ []) as Hne by discriminate.
  split; [exact Hall|]. split; [exact Hne|].
  exact (proj1 (proj2 (tester_user_round_robin _ _ Hall Hne))).
Defined.

(** X12.  User data that is not one JSON value: the job is never run, the
    decoding error leaves the [with] statement, and the entry is given
    back at the tail of the list with nothing else changed. *)
Theorem tester_user_undecodable (body : json → M unit) (w : world)
    (user_data : pystr) (rest : list pystr) (e : exn) :
  USER_LIST w = user_data :: rest →
  json_loads user_data = Raise e →
  with_ tester_user body w
  = (set_user_list (rest ++ [user_data]) w, Raise e).
Proof.
  intros Hl Hj. unfold with_, tester_user, bind, blpop_user.
  rewrite Hl, Hj. reflexivity.
Qed.

Lemma tester_user_undecodable_witness :
  USER_LIST (set_user_list [py "tester"; py "{}"] empty_world)
  = [py "tester"; py "{}"]
  ∧ json_loads (py "tester") = Raise JSONDecodeError
  ∧ with_ tester_user (fun _ => modify (set_clock 1%Qc))
      (set_user_list [py "tester"; py "{}"] empty_world)
    = (set_user_list [py "{}"; py "tester"] empty_world,
       Raise JSONDecodeError).
Proof.
  assert (USER_LIST (set_user_list [py "tester"; py "{}"] empty_world)
          = [py "tester"; py "{}"]) as Hl by reflexivity.
  assert (json_loads (py "tester") = Raise JSONDecodeError) as Hj
    by (vm_compute; reflexivity).
  split; [exact Hl|]. split; [exact Hj|].
  exact (tester_user_undecodable _ _ _ _ _ Hl Hj).
Defined.

(** * Readers and writers of the script directory *)

Lemma fresh_fds (w : world) : fds w !! fresh (dom (fds w)) = None.
Proof. apply not_elem_of_dom, is_fresh. Qed.

(** A lock held through an open descriptor on the same path stands in the
    way of an exclusive lock, and an exclusive one in the way of any. *)
Lemma lock_conflict_held (w : world) (fd fd' : nat) (p : path)
    (k k' : lock_kind) :
  fd' ≠ fd → fds w !! fd' = Some p → locks w !! fd' = Some k' →
  k = LOCK_EX ∨ k' = LOCK_EX →
  lock_conflict w fd p k = true.
Proof.
  intros Hne Hfd Hl Hk. unfold lock_conflict. apply existsb_exists.
  exists (fd', k'). split.
  - apply list_elem_of_In, elem_of_map_to_list, Hl.
  - rewrite !bool_decide_eq_true_2 by done.
    destruct Hk as [-> | ->]; [by destruct k'|by destruct k].
Qed.

(** Shared locks do not stand in each other's way. *)
Lemma lock_conflict_shared (w : world) (fd : nat) (p : path) :
  (∀ fd' k', fds w !! fd' = Some p → locks w !! fd' = Some k' →
             fd' = fd ∨ k' = LOCK_SH) →
  lock_conflict w fd p LOCK_SH = false.
Proof.
  intros Hsh. unfold lock_conflict.
  apply not_true_is_false. intros (x & Hin & Hx)%existsb_exists.
  destruct x as [fd' k'].
  apply list_elem_of_In, elem_of_map_to_list in Hin.
  apply andb_prop in Hx as [Hx Hk]. apply andb_prop in Hx as [Hx1 Hx2].
  apply bool_decide_eq_true in Hx1, Hx2.
  destruct (Hsh fd' k' Hx2 Hin) as [? | ->]; done.
Qed.

(** [copy_test_script_files] once the pointer and the directory are
    found. *)
Lemma copy_test_script_files_eq (markus_address assignment_id : string)
    (tests_path d : path) (n : node) (w : world) :
  CURRENT_TEST_SCRIPT_HASH w
    !! _get_test_script_key markus_address assignment_id = Some d →
  lookup_node d (fs w) = Some n →
  let fd := fresh (dom (fds w)) in
  let w1 := log (EvOpen fd d) (set_fds (<[fd := d]> (fds w)) w) in
  let w2 := log (EvFlock fd (Some LOCK_SH))
              (set_locks (<[fd := LOCK_SH]> (locks w1)) w1) in
  copy_test_script_files markus_address assignment_id tests_path w
  = if lock_conflict w1 fd d LOCK_SH then (w1, Blocked)
    else match _copy_tree d tests_path w2 with
         | (w3, Return _) =>
             match flock fd None w3 with
             | (w4, Return _) => os_close fd w4
             | (w4, Raise e) => (w4, Raise e)
             | (w4, Blocked) => (w4, Blocked)
             end
         | (w3, Raise e) => (w3, Raise e)
         | (w3, Blocked) => (w3, Blocked)
         end.
Proof.
  intros Hp Hn fd w1 w2.
  unfold copy_test_script_files, _test_script_directory, bind, ret, gets.
  rewrite Hp.
  unfold with_ at 1. unfold fd_open, bind, os_open. rewrite Hn.
  cbn [ret yielded yield_then resume throw]. fold fd. fold w1.
  unfold with_, fd_lock, bind, flock at 1.
  assert (fds w1 !! fd = Some d) as Hfd by apply lookup_insert_eq.
  rewrite Hfd.
  destruct (lock_conflict w1 fd d LOCK_SH); [done|].
  cbn [ret yielded yield_then resume throw]. fold w2.
  destruct (_copy_tree d tests_path w2) as [w3 [[]|e|]]; [|done|done].
  destruct (flock fd None w3) as [w4 [[]|e|]]; done.
Qed.

(** X13.  A run of [copy_test_script_files] that returns has read the
    directory under a shared lock and given back what it took: the
    descriptor opened is closed, its lock released, and the descriptors,
    the locks and the pointers are as before. *)
Theorem copy_test_script_files_balanced (markus_address assignment_id : string)
    (tests_path : path) (w w' : world) :
  dom (locks w) ⊆ dom (fds w) →
  copy_test_script_files markus_address assignment_id tests_path w
    = (w', Return tt) →
  ∃ d fd,
    CURRENT_TEST_SCRIPT_HASH w
      !! _get_test_script_key markus_address assignment_id = Some d
    ∧ trace w' = trace w ++ [EvOpen fd d; EvFlock fd (Some LOCK_SH);
                             EvFlock fd None; EvClose fd]
    ∧ fds w' = fds w ∧ locks w' = locks w
    ∧ CURRENT_TEST_SCRIPT_HASH w' = CURRENT_TEST_SCRIPT_HASH w.
Proof.
  intros Hwf H.
  destruct (CURRENT_TEST_SCRIPT_HASH w
              !! _get_test_script_key markus_address assignment_id)
    as [d|] eqn:Hp.
  2: { unfold copy_test_script_files, _test_script_directory, bind, ret,
         gets in H. rewrite Hp in H. done. }
  destruct (lookup_node d (fs w)) as [n|] eqn:Hn.
  2: { unfold copy_test_script_files, _test_script_directory, bind, ret,
         gets in H. rewrite Hp in H.
       unfold with_, fd_open, bind, os_open in H. rewrite Hn in H. done. }
  rewrite (copy_test_script_files_eq _ _ _ _ _ _ Hp Hn) in H.
  cbv zeta in H.
  set (fd := fresh (dom (fds w))) in *.
  set (w1 := log (EvOpen fd d) _) in *.
  destruct (lock_conflict w1 fd d LOCK_SH); [done|].
  set (w2 := log (EvFlock fd (Some LOCK_SH)) _) in *.
  pose proof (_copy_tree_registry d tests_path w2) as Hreg.
  destruct (_copy_tree d tests_path w2) as [w3 [[]|e|]]; [|done|done].
  unfold registry in Hreg. cbn [fst] in Hreg.
  injection Hreg as Hh Hf Hl Ht.
  unfold flock, os_close in H. rewrite Hf in H.
  rewrite lookup_insert_eq in H. unfold log, set_locks, set_fds in H.
  cbn [fds locks trace CURRENT_TEST_SCRIPT_HASH] in H.
  rewrite Hf, lookup_insert_eq in H.
  injection H as <-. cbn [fds locks trace CURRENT_TEST_SCRIPT_HASH].
  assert (fds w !! fd = None) as Hfresh by apply fresh_fds.
  assert (locks w !! fd = None) as Hnolock.
  { apply not_elem_of_dom. intros Hin. apply Hwf in Hin.
    by apply not_elem_of_dom in Hfresh. }
  exists d, fd. split; [done|]. split.
  { rewrite ?Ht. cbn. by rewrite <- !app_assoc. }
  split.
  { rewrite ?Hf. cbn. by rewrite delete_insert_eq, delete_id. }
  split.
  { rewrite ?Hl. cbn. by rewrite delete_insert_eq, delete_delete_eq, delete_id. }
  by rewrite ?Hh.
Qed.

Lemma copy_test_script_files_balanced_witness :
  dom (locks sample_world) ⊆ dom (fds sample_world)
  ∧ ∃ w', copy_test_script_files "host" "1" ["srv"; "sandbox"] sample_world
          = (w', Return tt)
          ∧ fds w' = fds sample_world.
Proof.
  assert (dom (locks sample_world) ⊆ dom (fds sample_world)) as Hwf
    by (cbn; set_solver).
  split; [exact Hwf|]. eexists. split; [vm_compute; reflexivity|].
  match goal with
  | |- fds ?w' = _ =>
      destruct (copy_test_script_files_balanced "host" "1" ["srv"; "sandbox"]
                  sample_world w' Hwf) as (d & fd & _ & _ & Hf & _);
        [vm_compute; reflexivity|exact Hf]
  end.
Defined.

Lemma for_each_not_blocked {A} (body : A → M unit) (xs : list A) :
  (∀ x w, (body x w).2 ≠ Blocked) →
  ∀ w, (for_each xs body w).2 ≠ Blocked.
Proof.
  intros Hbody. induction xs as [|x rest IH]; intros w; [done|].
  cbn [for_each]. unfold bind. specialize (Hbody x w).
  destruct (body x w) as [w1 [[]|e|]]; cbn in *; [apply IH|done|done].
Qed.

Lemma _copy_tree_not_blocked (src dst : path) (w : world) :
  (_copy_tree src dst w).2 ≠ Blocked.
Proof.
  unfold _copy_tree, bind, _recursive_iglob, gets.
  apply for_each_not_blocked. intros [fd file_or_dir] w0.
  destruct fd.
  - unfold os_makedirs. by destruct (makedirs_node _ _).
  - unfold shutil_copy2. repeat case_match; done.
Qed.

(** X14.  A reader of an installed script directory waits exactly when
    some other descriptor holds an exclusive lock on that directory;
    shared locks held by other readers do not stop it.  While it waits
    nothing has been copied. *)
Theorem copy_test_script_files_waits_for_writer
    (markus_address assignment_id : string) (tests_path d : path) (n : node)
    (w : world) :
  CURRENT_TEST_SCRIPT_HASH w
    !! _get_test_script_key markus_address assignment_id = Some d →
  lookup_node d (fs w) = Some n →
  let r := copy_test_script_files markus_address assignment_id tests_path w in
  (r.2 = Blocked
   ↔ ∃ fd', fds w !! fd' = Some d ∧ locks w !! fd' = Some LOCK_EX)
  ∧ (r.2 = Blocked → fs r.1 = fs w).
Proof.
  intros Hp Hn. cbv zeta.
  rewrite (copy_test_script_files_eq _ _ _ _ _ _ Hp Hn). cbv zeta.
  set (fd := fresh (dom (fds w))).
  set (w1 := log (EvOpen fd d) _).
  set (w2 := log (EvFlock fd (Some LOCK_SH)) _).
  assert (fds w !! fd = None) as Hfresh by apply fresh_fds.
  destruct (lock_conflict w1 fd d LOCK_SH) eqn:Hc.
  - split; [|done]. split; [intros _|done].
    unfold lock_conflict in Hc.
    apply existsb_exists in Hc as ([fd' k'] & Hin & Hx).
    apply list_elem_of_In, elem_of_map_to_list in Hin.
    apply andb_prop in Hx as [Hx Hk]. apply andb_prop in Hx as [Hx1 Hx2].
    apply bool_decide_eq_true in Hx1, Hx2.
    exists fd'. cbn in Hx2, Hin. rewrite lookup_insert_ne in Hx2 by done.
    by destruct k'.
  - assert (∀ r : world * pyresult unit, r.2 ≠ Blocked →
              (r.2 = Blocked
               ↔ ∃ fd', fds w !! fd' = Some d ∧ locks w !! fd' = Some LOCK_EX)
              ∧ (r.2 = Blocked → fs r.1 = fs w)) as Hnb.
    { intros r Hr. split; [|done]. split; [done|].
      intros (fd' & Hfd' & Hl'). exfalso.
      assert (fd' ≠ fd) as Hne by (intros ->; congruence).
      assert (lock_conflict w1 fd d LOCK_SH = true); [|congruence].
      apply (lock_conflict_held w1 fd fd' d LOCK_SH LOCK_EX);
        [done| |done|by right].
      cbn. by rewrite lookup_insert_ne. }
    apply Hnb.
    pose proof (_copy_tree_not_blocked d tests_path w2) as Hcopy.
    destruct (_copy_tree d tests_path w2) as [w3 [[]|e|]]; [|done|done].
    unfold flock. destruct (fds w3 !! fd); [|done]. cbn.
    unfold os_close. by case_match.
Qed.

Lemma copy_test_script_files_waits_for_writer_witness :
  CURRENT_TEST_SCRIPT_HASH sample_world
    !! _get_test_script_key "host" "1" = Some scripts_100
  ∧ (copy_test_script_files "host" "1" ["srv"; "sandbox"]
       (set_locks {[ 7 := LOCK_EX ]}
          (set_fds {[ 7 := scripts_100 ]} sample_world))).2 = Blocked.
Proof.
  assert (CURRENT_TEST_SCRIPT_HASH
            (set_locks {[ 7 := LOCK_EX ]}
               (set_fds {[ 7 := scripts_100 ]} sample_world))
            !! _get_test_script_key "host" "1" = Some scripts_100) as Hp
    by (vm_compute; reflexivity).
  assert (lookup_node scripts_100
            (fs (set_locks {[ 7 := LOCK_EX ]}
                   (set_fds {[ 7 := scripts_100 ]} sample_world)))
          = Some (Dir [("test.py", File (py "print(1)"))])) as Hn
    by reflexivity.
  split; [exact Hp|].
  apply (copy_test_script_files_waits_for_writer "host" "1"
           ["srv"; "sandbox"] _ _ _ Hp Hn).
  exists 7. split; vm_compute; reflexivity.
Defined.

(** The body of [update_test_scripts] up to the exclusive lock, once the
    copy has returned and the old directory is found. *)
Lemma update_test_scripts_body_eq (config : Config) (files_path : path)
    (assignment_id markus_address : string) (old : path) (n : node)
    (w w1 : world) :
  let key := _get_test_script_key markus_address assignment_id in
  let new_dir :=
    new_test_script_dir config markus_address assignment_id (b64 (clock w)) in
  let w2 := log (EvPointer key new_dir)
              (set_script_hash (<[key := new_dir]> (CURRENT_TEST_SCRIPT_HASH w1))
                 w1) in
  let fd := fresh (dom (fds w2)) in
  let w3 := log (EvOpen fd old) (set_fds (<[fd := old]> (fds w2)) w2) in
  _copy_tree files_path new_dir w = (w1, Return tt) →
  CURRENT_TEST_SCRIPT_HASH w !! key = Some old →
  lookup_node old (fs w1) = Some n →
  update_test_scripts_body config files_path assignment_id markus_address w
  = match with_ (fd_lock fd true)
            (fun _ => rmtree (Some old) _ignore_missing_dir_error) w3 with
    | (w4, Return _) => os_close fd w4
    | (w4, Raise e) => (w4, Raise e)
    | (w4, Blocked) => (w4, Blocked)
    end.
Proof.
  intros key new_dir w2 fd w3 Hcopy Hp Hn.
  pose proof (_copy_tree_registry files_path new_dir w) as Hreg.
  rewrite Hcopy in Hreg. unfold registry in Hreg. cbn [fst] in Hreg.
  injection Hreg as Hh Hf Hl Ht.
  unfold update_test_scripts_body, bind, time_time, gets.
  fold new_dir. rewrite Hcopy.
  unfold _test_script_directory, bind, ret, gets, modify. fold key.
  rewrite <- Hh in Hp. rewrite Hp. fold w2.
  unfold with_ at 1. unfold fd_open, bind, os_open.
  change (fs w2) with (fs w1). rewrite Hn.
  cbn [ret yielded yield_then resume throw]. fold fd. fold w3.
  reflexivity.
Qed.

(** X15.  The writer waits for its readers: while any other descriptor
    holds a lock on the old script directory, [update_test_scripts] does
    not come back; the pointer already names the new directory, and the
    old one has not been removed. *)
Theorem update_test_scripts_waits_for_readers (config : Config)
    (files_path : path) (assignment_id markus_address : string)
    (old : path) (n : node) (fd' : nat) (k : lock_kind) (w w1 : world) :
  let key := _get_test_script_key markus_address assignment_id in
  let new_dir :=
    new_test_script_dir config markus_address assignment_id (b64 (clock w)) in
  _copy_tree files_path new_dir w = (w1, Return tt) →
  CURRENT_TEST_SCRIPT_HASH w !! key = Some old →
  lookup_node old (fs w1) = Some n →
  fds w !! fd' = Some old → locks w !! fd' = Some k →
  let r :=
    update_test_scripts config files_path assignment_id markus_address w in
  r.2 = Blocked
  ∧ CURRENT_TEST_SCRIPT_HASH r.1 !! key = Some new_dir
  ∧ fs r.1 = fs w1
  ∧ lookup_node old (fs r.1) = Some n.
Proof.
  intros key new_dir Hcopy Hp Hn Hfd' Hl'. cbv zeta.
  pose proof (_copy_tree_registry files_path new_dir w) as Hreg.
  rewrite Hcopy in Hreg. unfold registry in Hreg. cbn [fst] in Hreg.
  injection Hreg as Hh Hf Hl Ht.
  pose (w2 := log (EvPointer key new_dir)
                (set_script_hash
                   (<[key := new_dir]> (CURRENT_TEST_SCRIPT_HASH w1)) w1)).
  pose (fd := fresh (dom (fds w2))).
  pose (w3 := log (EvOpen fd old) (set_fds (<[fd := old]> (fds w2)) w2)).
  assert (fds w2 !! fd = None) as Hfresh by apply fresh_fds.
  assert (fd' ≠ fd) as Hne.
  { intros ->. cbn in Hfresh. congruence. }
  assert (lock_conflict w3 fd old LOCK_EX = true) as Hc.
  { apply (lock_conflict_held w3 fd fd' old LOCK_EX k); [done| | |by left].
    - cbn. rewrite lookup_insert_ne by done. congruence.
    - cbn. congruence. }
  assert (fds w3 !! fd = Some old) as Hfd by apply lookup_insert_eq.
  assert (update_test_scripts config files_path assignment_id markus_address w
          = (w3, Blocked)) as ->.
  { unfold update_test_scripts, clean_after, try_finally, bind at 1.
    rewrite (update_test_scripts_body_eq _ _ _ _ _ _ _ _ Hcopy Hp Hn).
    cbv zeta. fold key new_dir w2 fd w3.
    unfold with_, fd_lock, bind, flock. rewrite Hfd, Hc. reflexivity. }
  cbn [fst snd].
  split; [done|]. split; [apply lookup_insert_eq|]. done.
Qed.

Lemma update_test_scripts_waits_for_readers_witness :
  let w := set_locks {[ 7 := LOCK_SH ]}
             (set_fds {[ 7 := scripts_100 ]} upload_world) in
  CURRENT_TEST_SCRIPT_HASH w !! _get_test_script_key "host" "1"
    = Some scripts_100
  ∧ fds w !! 7 = Some scripts_100 ∧ locks w !! 7 = Some LOCK_SH
  ∧ (update_test_scripts sample_config ["srv"; "upload"] "1" "host" w).2
    = Blocked.
Proof.
  cbv zeta.
  set (w := set_locks {[ 7 := LOCK_SH ]}
              (set_fds {[ 7 := scripts_100 ]} upload_world)).
  assert (CURRENT_TEST_SCRIPT_HASH w !! _get_test_script_key "host" "1"
          = Some scripts_100) as Hp by (vm_compute; reflexivity).
  assert (fds w !! 7 = Some scripts_100) as Hfd by (vm_compute; reflexivity).
  assert (locks w !! 7 = Some LOCK_SH) as Hl by (vm_compute; reflexivity).
  split; [exact Hp|]. split; [exact Hfd|]. split; [exact Hl|].
  assert (_copy_tree ["srv"; "upload"]
            (new_test_script_dir sample_config "host" "1" (b64 (clock w))) w
          = ((_copy_tree ["srv"; "upload"]
                (new_test_script_dir sample_config "host" "1" (b64 (clock w))) w).1,
             Return tt)) as Hcopy by (vm_compute; reflexivity).
  assert (lookup_node scripts_100
            (fs (_copy_tree ["srv"; "upload"]
                   (new_test_script_dir sample_config "host" "1" (b64 (clock w)))
                   w).1)
          = Some (Dir [("test.py", File (py "print(1)"))])) as Hn
    by (vm_compute; reflexivity).
  exact (proj1 (update_test_scripts_waits_for_readers sample_config
                  ["srv"; "upload"] "1" "host" scripts_100 _ 7 LOCK_SH w _
                  Hcopy Hp Hn Hfd Hl)).
Defined.

(** * Updates that do not go through *)

(** X16.  The first upload for an assignment: with no pointer recorded,
    [update_test_scripts] copies the scripts and sets the pointer, and then
    fails with [TypeError] on opening the old directory, which is [None];
    no descriptor is left open. *)
Theorem update_test_scripts_first_upload (config : Config)
    (files_path : path) (assignment_id markus_address : string)
    (w w1 : world) :
  let key := _get_test_script_key markus_address assignment_id in
  let new_dir :=
    new_test_script_dir config markus_address assignment_id (b64 (clock w)) in
  _copy_tree files_path new_dir w = (w1, Return tt) →
  CURRENT_TEST_SCRIPT_HASH w !! key = None →
  let r :=
    update_test_scripts config files_path assignment_id markus_address w in
  (∃ text, r.2 = Raise (TypeError text))
  ∧ CURRENT_TEST_SCRIPT_HASH r.1 !! key = Some new_dir
  ∧ trace r.1 = trace w ++ [EvPointer key new_dir]
  ∧ fs r.1 = fs w1 ∧ fds r.1 = fds w ∧ locks r.1 = locks w.
Proof.
  intros key new_dir Hcopy Hp. cbv zeta.
  pose proof (_copy_tree_registry files_path new_dir w) as Hreg.
  rewrite Hcopy in Hreg. unfold registry in Hreg. cbn [fst] in Hreg.
  injection Hreg as Hh Hf Hl Ht.
  pose (w2 := log (EvPointer key new_dir)
                (set_script_hash
                   (<[key := new_dir]> (CURRENT_TEST_SCRIPT_HASH w1)) w1)).
  assert (update_test_scripts_body config files_path assignment_id
            markus_address w
          = (w2, Raise (TypeError "open: path should be string, bytes or os.PathLike, not NoneType")))
    as Hbody.
  { unfold update_test_scripts_body, bind, time_time, gets.
    fold new_dir. rewrite Hcopy.
    unfold _test_script_directory, bind, ret, gets, modify. fold key.
    rewrite <- Hh in Hp. rewrite Hp. reflexivity. }
  unfold update_test_scripts. rewrite clean_after_eq, Hbody.
  destruct (clean_up_frame w2) as [h ->]. cbn [fst snd].
  split; [by eexists|]. split; [apply lookup_insert_eq|].
  cbn. by rewrite Ht, Hf, Hl.
Qed.

Lemma update_test_scripts_first_upload_witness :
  let w := set_script_hash ∅ upload_world in
  CURRENT_TEST_SCRIPT_HASH w !! _get_test_script_key "host" "1" = None
  ∧ CURRENT_TEST_SCRIPT_HASH
      (update_test_scripts sample_config ["srv"; "upload"] "1" "host" w).1
      !! _get_test_script_key "host" "1"
    = Some ["srv"; "scripts"; "host"; "1"; "test_scripts_200"].
Proof.
  cbv zeta. set (w := set_script_hash ∅ upload_world).
  assert (CURRENT_TEST_SCRIPT_HASH w !! _get_test_script_key "host" "1"
          = None) as Hp by (vm_compute; reflexivity).
  assert (_copy_tree ["srv"; "upload"]
            (new_test_script_dir sample_config "host" "1" (b64 (clock w))) w
          = ((_copy_tree ["srv"; "upload"]
                (new_test_script_dir sample_config "host" "1" (b64 (clock w))) w).1,
             Return tt)) as Hcopy by (vm_compute; reflexivity).
  split; [exact Hp|].
  exact (proj1 (proj2 (update_test_scripts_first_upload sample_config
                         ["srv"; "upload"] "1" "host" w _ Hcopy Hp))).
Defined.

(** X17.  When copying the upload fails, the update stops there: the
    exception is passed on and the pointer, the descriptors, the locks and
    the trace are as before, so the installed version stays in use. *)
Theorem update_test_scripts_copy_fails (config : Config)
    (files_path : path) (assignment_id markus_address : string)
    (w w1 : world) (e : exn) :
  _copy_tree files_path
    (new_test_script_dir config markus_address assignment_id (b64 (clock w))) w
    = (w1, Raise e) →
  let r :=
    update_test_scripts config files_path assignment_id markus_address w in
  r.2 = Raise e ∧ registry r.1 = registry w ∧ fs r.1 = fs w1.
Proof.
  intros Hcopy. cbv zeta.
  pose proof (_copy_tree_registry files_path
                (new_test_script_dir config markus_address assignment_id
                   (b64 (clock w))) w) as Hreg.
  rewrite Hcopy in Hreg. cbn [fst] in Hreg.
  assert (update_test_scripts_body config files_path assignment_id
            markus_address w = (w1, Raise e)) as Hbody.
  { unfold update_test_scripts_body, bind, time_time, gets.
    by rewrite Hcopy. }
  unfold update_test_scripts. rewrite clean_after_eq, Hbody.
  destruct (clean_up_frame w1) as [h ->]. cbn [fst snd].
  split; [done|]. split; [|done]. by rewrite <- Hreg.
Qed.

Lemma update_test_scripts_copy_fails_witness :
  let w := set_clock (Qc_of_Z 200) sample_world in
  (_copy_tree ["srv"; "upload"]
     (new_test_script_dir sample_config "host" "1" (b64 (clock w))) w).2
    = Raise FileNotFoundError
  ∧ CURRENT_TEST_SCRIPT_HASH
      (update_test_scripts sample_config ["srv"; "upload"] "1" "host" w).1
    = CURRENT_TEST_SCRIPT_HASH w.
Proof.
  cbv zeta. set (w := set_clock (Qc_of_Z 200) sample_world).
  assert (_copy_tree ["srv"; "upload"]
            (new_test_script_dir sample_config "host" "1" (b64 (clock w))) w
          = ((_copy_tree ["srv"; "upload"]
                (new_test_script_dir sample_config "host" "1" (b64 (clock w))) w).1,
             Raise FileNotFoundError)) as Hcopy by (vm_compute; reflexivity).
  split; [by rewrite Hcopy|].
  exact (f_equal (fun x => x.1.1.1)
           (proj1 (proj2 (update_test_scripts_copy_fails sample_config
                            ["srv"; "upload"] "1" "host" w _ _ Hcopy)))).
Defined.

(** * Copying a directory *)

Lemma lookup_node_app (p q : path) : ∀ n,
  lookup_node (p ++ q) n = lookup_node p n ≫= lookup_node q.
Proof.
  induction p as [|name rest IH]; intros n; [done|].
  cbn [app lookup_node]. destruct n as [c|entries]; [done|].
  destruct (lookup_entry name entries) as [child|]; [|done]. cbn. apply IH.
Qed.

Lemma lookup_node_singleton (name : string) (entries : list (string * node)) :
  lookup_node [name] (Dir entries) = lookup_entry name entries.
Proof. cbn. by destruct (lookup_entry name entries). Qed.

Lemma lookup_entry_set_entry_eq (name : string) (x : node)
    (entries : list (string * node)) :
  lookup_entry name (set_entry name (Some x) entries) = Some x.
Proof.
  induction entries as [|[n child] rest IH]; cbn.
  - by rewrite bool_decide_eq_true_2.
  - case_bool_decide as Hn; cbn.
    + by rewrite bool_decide_eq_true_2.
    + by rewrite bool_decide_eq_false_2.
Qed.

Lemma lookup_entry_set_entry_ne (name name' : string) (new : option node)
    (entries : list (string * node)) :
  name' ≠ name →
  lookup_entry name' (set_entry name new entries) = lookup_entry name' entries.
Proof.
  intros Hne. induction entries as [|[n child] rest IH]; cbn.
  - destruct new; cbn; [|done]. by rewrite bool_decide_eq_false_2.
  - case_bool_decide as Hn; cbn.
    + subst n. rewrite (bool_decide_eq_false_2 (name = name')) by done.
      destruct new; cbn; [|done]. by rewrite bool_decide_eq_false_2.
    + by rewrite IH.
Qed.

Lemma diverge_app_r (p q r : path) :
  diverge p q = true → diverge p (q ++ r) = true.
Proof.
  revert q. induction p as [|a p IH]; intros [|b q]; cbn; try done.
  case_bool_decide; [apply IH|done].
Qed.

(** Writing an entry of a directory: the directory lists it, and what lies
    beside the path written is as before. *)
Lemma set_node_entry (p : path) (name : string) (new : option node) :
  ∀ (n : node) (entries : list (string * node)),
  lookup_node p n = Some (Dir entries) →
  ∃ n', set_node (p ++ [name]) new n = Some n'
        ∧ lookup_node p n' = Some (Dir (set_entry name new entries))
        ∧ ∀ q, diverge q (p ++ [name]) = true →
               lookup_node q n' = lookup_node q n.
Proof.
  induction p as [|x p IH]; intros n entries Hn.
  - cbn in Hn. injection Hn as ->. eexists. split; [reflexivity|].
    split; [reflexivity|]. intros [|a q] Hq; [done|]. cbn in Hq.
    case_bool_decide as Ha; [by destruct q|]. cbn.
    by rewrite lookup_entry_set_entry_ne.
  - cbn [lookup_node] in Hn. destruct n as [c|es0]; [done|].
    destruct (lookup_entry x es0) as [child|] eqn:Hx; [|done]. cbn in Hn.
    destruct (IH child entries Hn) as (child' & Hset & Hlook & Hother).
    exists (Dir (set_entry x (Some child') es0)). split; [|split].
    + cbn [app set_node]. rewrite Hx. cbn. rewrite Hset. cbn.
      by destruct p.
    + cbn [lookup_node]. rewrite lookup_entry_set_entry_eq. exact Hlook.
    + intros [|a q] Hq; [done|]. cbn in Hq. cbn [lookup_node].
      case_bool_decide as Ha.
      * subst a. rewrite lookup_entry_set_entry_eq, Hx. cbn.
        by apply Hother.
      * by rewrite lookup_entry_set_entry_ne.
Qed.

(** [os.walk] over a directory that holds files only. *)
Lemma walk_flat (root : path) (entries : list (string * node)) :
  Forall (fun e => is_dir e.2 = false) entries →
  walk root (Dir entries) = (fun e => (false, root ++ [e.1])) <$> entries.
Proof.
  intros Hflat. cbn [walk].
  assert (filter (fun e : string * node => is_dir e.2 = true) entries = [])
    as ->.
  { induction Hflat as [|e l He _ IH]; [done|].
    rewrite filter_cons_False by congruence. exact IH. }
  assert (filter (fun e : string * node => is_dir e.2 = false) entries
          = entries) as ->.
  { induction Hflat as [|e l He _ IH]; [done|].
    rewrite filter_cons_True by done. by rewrite IH. }
  cbn [fmap list_fmap app].
  match goal with
  | |- ?l ++ ?b = ?l => assert (b = []) as ->; [|by rewrite app_nil_r]
  end.
  induction Hflat as [|[name child] l He _ IH]; [done|].
  cbn in He. rewrite He. exact IH.
Qed.

(** X18.  A source that is missing, or is a file, is no error: [_copy_tree]
    returns and nothing has changed. *)
Theorem _copy_tree_nothing_to_copy (src dst : path) (w : world) :
  (lookup_node src (fs w) = None
   ∨ ∃ content, lookup_node src (fs w) = Some (File content)) →
  _copy_tree src dst w = (w, Return tt).
Proof.
  intros Hsrc. unfold _copy_tree, bind, _recursive_iglob, gets.
  destruct Hsrc as [-> | [content ->]]; reflexivity.
Qed.

Lemma _copy_tree_nothing_to_copy_witness :
  lookup_node ["srv"; "nowhere"] (fs sample_world) = None
  ∧ _copy_tree ["srv"; "nowhere"] ["srv"; "sandbox"] sample_world
    = (sample_world, Return tt).
Proof.
  assert (lookup_node ["srv"; "nowhere"] (fs sample_world) = None) as H
    by reflexivity.
  split; [exact H|].
  exact (_copy_tree_nothing_to_copy _ _ _ (or_introl H)).
Defined.



Lemma lookup_entry_app (name : string) (a b : list (string * node)) :
  lookup_entry name (a ++ b)
  = match lookup_entry name a with
    | Some x => Some x
    | None => lookup_entry name b
    end.
Proof.
  induction a as [|[n child] a IH]; [done|]. cbn.
  by case_bool_decide.
Qed.

Lemma lookup_entry_flat (name : string) (entries : list (string * node))
    (x : node) :
  Forall (fun e => is_dir e.2 = false) entries →
  lookup_entry name entries = Some x → ∃ content, x = File content.
Proof.
  intros Hflat. induction Hflat as [|[n child] l He _ IH]; [done|]. cbn.
  case_bool_decide; [|done]. intros [= <-]. cbn in He.
  destruct child; [by eexists|done].
Qed.

Section FlatCopy.
Variables (src dst : path) (entries dentries : list (string * node)).
Hypothesis Hflat : Forall (fun e => is_dir e.2 = false) entries.
Hypothesis Hfree : ∀ name es,
  lookup_entry name entries ≠ None →
  lookup_entry name dentries ≠ Some (Dir es).
Hypothesis Hdiv : diverge src dst = true.

Lemma copy_one_file (copied : list (string * node)) (name : string)
    (child : node) (w : world) :
  lookup_entry name entries ≠ None →
  copied_so_far src dst entries dentries copied w →
  let r := shutil_copy2 (src ++ [name])
             (dst ++ drop (length src) (src ++ [name])) w in
  r.2 = Return tt
  ∧ copied_so_far src dst entries dentries (copied ++ [(name, child)]) r.1.
Proof.
  intros Hname (Hsrc & d' & Hdst & Hd'). cbv zeta.
  destruct (lookup_entry name entries) as [x|] eqn:Hx; [|done].
  destruct (lookup_entry_flat _ _ _ Hflat Hx) as [content ->].
  unfold shutil_copy2. rewrite drop_app_length.
  rewrite !lookup_node_app, Hsrc, Hdst. cbn [mbind option_bind].
  rewrite !lookup_node_singleton, Hx.
  assert (∀ es, lookup_entry name d' ≠ Some (Dir es)) as Hnodir.
  { intros es. rewrite Hd'. destruct (lookup_entry name copied).
    - by rewrite Hx.
    - apply Hfree. by rewrite Hx. }
  assert (match lookup_entry name d' with
          | Some (Dir _) => (dst ++ [name]) ++ drop (length (src ++ [name]) - 1)
                                                 (src ++ [name])
          | _ => dst ++ [name]
          end = dst ++ [name]) as ->.
  { destruct (lookup_entry name d') as [[|es]|]; [done| |done].
    by destruct (Hnodir es). }
  rewrite length_app. cbn [length].
  replace (length dst + 1 - 1) with (length dst) by lia.
  rewrite take_app_length, Hdst.
  destruct (set_node_entry dst name (Some (File content)) (fs w) d' Hdst)
    as (n' & Hset & Hlook & Hother).
  rewrite Hset. cbn [fst snd fs set_fs]. split; [done|]. split.
  - rewrite Hother; [done|]. by apply diverge_app_r.
  - eexists. split; [exact Hlook|]. intros name'.
    rewrite lookup_entry_app. cbn [lookup_entry].
    destruct (decide (name' = name)) as [->|Hne].
    + rewrite lookup_entry_set_entry_eq, Hx.
      rewrite bool_decide_eq_true_2 by done.
      by destruct (lookup_entry name copied).
    + rewrite lookup_entry_set_entry_ne by done.
      rewrite (bool_decide_eq_false_2 (name = name')) by done.
      rewrite Hd'. by destruct (lookup_entry name' copied).
Qed.

Lemma copy_files (todo : list (string * node)) :
  ∀ (copied : list (string * node)) (w : world),
  copied ++ todo = entries →
  copied_so_far src dst entries dentries copied w →
  let r := for_each ((fun e => (false, src ++ [e.1])) <$> todo)
             (fun '(fd, file_or_dir) =>
                let target := dst ++ drop (length src) file_or_dir in
                if (fd : bool) then os_makedirs target
                else shutil_copy2 file_or_dir target) w in
  r.2 = Return tt ∧ copied_so_far src dst entries dentries entries r.1.
Proof.
  induction todo as [|[name child] todo IH]; intros copied w Heq Hinv.
  - rewrite app_nil_r in Heq. by subst copied.
  - cbv zeta. cbn [fmap list_fmap for_each fst]. unfold bind.
    assert (lookup_entry name entries ≠ None) as Hname.
    { rewrite <- Heq, lookup_entry_app. destruct (lookup_entry name copied);
        [done|]. cbn. by rewrite bool_decide_eq_true_2. }
    destruct (copy_one_file copied name child w Hname Hinv) as [Hr Hinv'].
    destruct (shutil_copy2 _ _ w) as [w1 r1]. cbn [fst snd] in *. subst r1.
    apply (IH (copied ++ [(name, child)])); [|done].
    by rewrite <- app_assoc.
Qed.
End FlatCopy.



(** * Scripts that print *)

(** X20.  The pipes of a test script hold [bytes], and the decoder takes
    [str] only: as soon as a script has written anything to its standard
    output, building its result raises [TypeError] inside the [finally]
    block, and the exception leaves [run_test_scripts]; no results are
    returned and the scripts after it are not started. *)
Theorem run_test_scripts_printing_script (cmd file_name args : string)
    (timeout_ : option Qc) (rest : list (string * option Qc))
    (tests_path : path) (w w1 w2 : world) (proc : nat) (c : N)
    (stdout : pybytes) (stderr : pydata) :
  format cmd file_name = Return args →
  Popen args tests_path w = (w1, Return proc) →
  communicate proc None w1 = (w2, Return (Bytes (c :: stdout), stderr)) →
  run_test_scripts cmd ((file_name, timeout_) :: rest) tests_path w
  = (w2, Raise (TypeError "first argument must be a string, not bytes")).
Proof.
  intros Hformat Hpopen Hcomm.
  unfold run_test_scripts, run_test_scripts_body.
  rewrite bind_assign. cbn [for_each].
  unfold bind at 1 2. rewrite bind_assign, bind_assign.
  unfold bind at 1. unfold lift at 1, time_time at 1, gets at 1.
  cbn [fst snd]. rewrite bind_assign. cbn [fst snd].
  unfold try_finally, try_except, bind at 1, lift_result at 1.
  rewrite Hformat. unfold bind at 1, lift at 1. rewrite Hpopen.
  unfold try_except_class, try_except, bind at 1, local at 1, gets at 1.
  cbn [fst snd timeout set_timeout].
  unfold bind at 1, lift at 1. rewrite Hcomm.
  unfold assign at 1, modify at 1. cbn [fst snd].
  unfold bind at 1, lift at 1, time_time at 1, gets at 1. cbn [fst snd].
  unfold bind at 1, local at 1, gets at 1. cbn [fst snd id].
  unfold bind at 1, lift_result at 1.
  cbn [out err set_out_err fst snd].
  rewrite create_test_script_result_bytes.
  reflexivity.
Qed.

Lemma run_test_scripts_printing_script_witness :
  format "./{}" "a.py" = Return "./a.py"
  ∧ (run_test_scripts "./{}" [("a.py", None); ("b.py", None)]
       ["srv"; "sandbox"] sample_world).2
    = Raise (TypeError "first argument must be a string, not bytes").
Proof.
  assert (format "./{}" "a.py" = Return "./a.py") as Hformat
    by reflexivity.
  split; [exact Hformat|].
  assert (∃ w1, Popen "./a.py" ["srv"; "sandbox"] sample_world
                = (w1, Return 0)) as [w1 Hpopen]
    by (eexists; vm_compute; reflexivity).
  assert (∃ w2, communicate 0 None w1
                = (w2, Return (Bytes (ord "{" :: pyq "'status': 'pass'}"),
                               Bytes []))) as [w2 Hcomm].
  { injection Hpopen as <-. eexists. vm_compute. reflexivity. }
  by rewrite (run_test_scripts_printing_script _ _ _ None [("b.py", None)]
                _ _ _ _ _ _ _ _ Hformat Hpopen Hcomm).
Defined.
